(** * Animation sequencing of the EndOfDayz front-end (a3/csse7030.py)

    A shallow embedding of the [Animation] class hierarchy, of the grid
    geometry it reads ([AbstractGrid.get_position_center], a3/task1.py) and of
    [AnimationManager], followed by the properties of the sequencer.

    Conventions of the embedding:
    - Python integers are [Z]; [//] is [Z.div] (both floor);
    - a method that may raise returns a [result];
    - an object is a record, a method takes [self] and returns the updated
      record; the widget toolkit and whatever the registered callables touch
      are one state, [World], threaded through every call;
    - the toolkit and the game logic ([a2_solution]) are outside the
      repository: they are the operations of the classes [Toolkit] and
      [GameLogic], total functions on [World]. *)

From Stdlib Require Import ZArith List Bool Lia.
Import ListNotations.
Open Scope Z_scope.

(** ** Exceptions *)

Inductive exn : Type :=
| ValueError
| AttributeError
| ZeroDivisionError
| NotImplementedError
| IndexError.

Inductive result (A : Type) : Type :=
| Ok (a : A)
| Raise (e : exn).

Arguments Ok {A} a.
Arguments Raise {A} e.

Definition bind {A B : Type} (c : result A) (k : A -> result B) : result B :=
  match c with
  | Ok a => k a
  | Raise e => Raise e
  end.

Notation "x <- c ;; k" := (bind c (fun x => k))
  (at level 61, c at next level, right associativity).

Notation "' pat <- c ;; k" :=
  (bind c (fun x => match x with pat => k end))
  (at level 61, pat pattern, c at next level, right associativity).

(** ** Python primitives used by the source *)

(** [round(a / b)] on integers: true division, then rounding to the nearest
    integer with ties to the even one.  The quotient is taken exactly; the
    source goes through a double, which agrees for the operands the program
    feeds it (the numerator is 1000).  Division by zero raises. *)
Definition py_round_truediv (a b : Z) : result Z :=
  if b =? 0 then Raise ZeroDivisionError
  else
    let q := a / b in
    let r := a mod b in
    if 2 * Z.abs r <? Z.abs b then Ok q
    else if Z.abs b <? 2 * Z.abs r then Ok (q + 1)
    else if Z.even q then Ok q else Ok (q + 1).

(** [l[i]]: negative indices count from the end, anything else out of range
    raises [IndexError]. *)
Definition py_getitem {A : Type} (l : list A) (i : Z) : result A :=
  let n := Z.of_nat (length l) in
  let j := if i <? 0 then i + n else i in
  if (0 <=? j) && (j <? n) then
    match nth_error l (Z.to_nat j) with
    | Some x => Ok x
    | None => Raise IndexError
    end
  else Raise IndexError.

(** [d.get(k)] on a dict written as an association list. *)
Fixpoint dict_get (d : list ((Z * Z) * Z)) (k : Z * Z) : option Z :=
  match d with
  | [] => None
  | ((k1, k2), v) :: rest =>
      if (k1 =? fst k) && (k2 =? snd k) then Some v else dict_get rest k
  end.

(** ** External collaborators *)

Definition Pixel : Type := (Z * Z)%type.

(** The canvas operations the animations call.  [get_image angle] stands for
    [canvas.get_image(ARROW, angle=angle)] (task2.py: it fills a cache, hence
    the new world). *)
Class Toolkit : Type := {
  World : Type;
  Item : Type;
  Image : Type;
  get_image : option Z -> World -> Image * World;
  create_image : Pixel -> Image -> World -> Item * World;
  delete : Item -> World -> World
}.

(** [restore s] stands for the game rebuilt from a snapshot:
    [SuperUltraHyperMegaAdvancedGame(s.get_grid())] followed by
    [apply_state(s)]. *)
Class GameLogic : Type := {
  GameState : Type;
  Game : Type;
  restore : GameState -> Game
}.

(** ** AbstractGrid (task1.py) *)

Module AbstractGrid.

Record t : Type := {
  _cell_width : Z;
  _cell_height : Z
}.

Definition get_position_center (self : t) (position : Z * Z) : Pixel :=
  let '(row, col) := position in
  let x_pos := col * _cell_width self + _cell_width self / 2 in
  let y_pos := row * _cell_height self + _cell_height self / 2 in
  (x_pos, y_pos).

End AbstractGrid.

(** ** Animation *)

Module Animation.
Section Defs.
Context {tk : Toolkit}.

Definition Callback : Type := World -> World.

(** The two attributes [Animation.__init__] assigns.  [None] is an attribute
    that was never assigned: reading it raises [AttributeError]. *)
Record t : Type := {
  _start_callback : option Callback;
  _finish_callback : option Callback
}.

Definition DEFAULT_FRAMERATE : Z := 20.

(** A fresh object, before any [__init__] ran. *)
Definition fresh : t :=
  {| _start_callback := None; _finish_callback := None |}.

Definition __init__ (self : t) : t :=
  {| _start_callback := Some (fun w => w);
     _finish_callback := Some (fun w => w) |}.

Definition on_finish (self : t) (callback : Callback) : t :=
  {| _start_callback := _start_callback self;
     _finish_callback := Some callback |}.

Definition on_start (self : t) (start_callback : Callback) : t :=
  {| _start_callback := Some start_callback;
     _finish_callback := _finish_callback self |}.

Definition get_framerate (self : t) : Z := DEFAULT_FRAMERATE.

Definition step (self : t) (w : World) : result (bool * t * World) :=
  Raise NotImplementedError.

Definition start (self : t) (w : World) : result (t * World) :=
  match _start_callback self with
  | Some callback => Ok (self, callback w)
  | None => Raise AttributeError
  end.

Definition finish (self : t) (w : World) : result (t * World) :=
  match _finish_callback self with
  | Some callback => Ok (self, callback w)
  | None => Raise AttributeError
  end.

(** [round(1000 / self.get_framerate())]; [get_framerate] is dispatched on
    the object, so its value is the argument. *)
Definition get_frequency (framerate : Z) : result Z :=
  py_round_truediv 1000 framerate.

End Defs.
End Animation.

(** The interface the manager drives. *)
Class Animated {tk : Toolkit} (A : Type) : Type := {
  start : A -> World -> result (A * World);
  step : A -> World -> result (bool * A * World);
  finish : A -> World -> result (A * World);
  get_frequency : A -> result Z
}.

#[export] Instance Animation_Animated {tk : Toolkit} : Animated Animation.t := {
  start := Animation.start;
  step := Animation.step;
  finish := Animation.finish;
  get_frequency := fun self =>
    Animation.get_frequency (Animation.get_framerate self)
}.

(** ** CrossboltAnimation *)

Module CrossboltAnimation.
Section Defs.
Context {tk : Toolkit}.

(** [STEP_SIZE] is a class attribute read as [self.STEP_SIZE]; the methods
    take it as a parameter and the class's own value is [STEP_SIZE_class]. *)
Variable STEP_SIZE : Z.

Record t : Type := {
  base : Animation.t;
  _position : Pixel;
  _target : Pixel;
  _direction : Z * Z;
  _angle : option Z;
  _image : option Item
}.

Definition ANGLE_MAP : list ((Z * Z) * Z) :=
  [((0, -1), 90); ((0, 1), 270); ((-1, 0), 180); ((1, 0), 0)].

Definition _direction_from_positions (start target : Z * Z)
  : result (Z * Z) :=
  let '(start_x, start_y) := start in
  let '(target_x, target_y) := target in
  if start_x <? target_x then Ok (0, 1)
  else if start_x >? target_x then Ok (0, -1)
  else if start_y <? target_y then Ok (1, 0)
  else if start_y >? target_y then Ok (-1, 0)
  else Raise ValueError.

Definition _angle_from_direction (direction : Z * Z) : option Z :=
  dict_get ANGLE_MAP direction.

(** The constructor does not call [Animation.__init__]: the two callback
    attributes stay unassigned. *)
Definition __init__ (canvas : AbstractGrid.t) (start target : Z * Z)
  : result t :=
  let position := AbstractGrid.get_position_center canvas start in
  let target_px := AbstractGrid.get_position_center canvas target in
  direction <- _direction_from_positions start target ;;
  Ok {| base := Animation.fresh;
        _position := position;
        _target := target_px;
        _direction := direction;
        _angle := _angle_from_direction direction;
        _image := None |}.

Definition set_base (self : t) (b : Animation.t) : t :=
  {| base := b;
     _position := _position self;
     _target := _target self;
     _direction := _direction self;
     _angle := _angle self;
     _image := _image self |}.

Definition set_image (self : t) (i : option Item) : t :=
  {| base := base self;
     _position := _position self;
     _target := _target self;
     _direction := _direction self;
     _angle := _angle self;
     _image := i |}.

Definition set_position (self : t) (p : Pixel) : t :=
  {| base := base self;
     _position := p;
     _target := _target self;
     _direction := _direction self;
     _angle := _angle self;
     _image := _image self |}.

(** [on_finish], [on_start] and [start] are inherited from [Animation]. *)
Definition on_finish (self : t) (callback : Animation.Callback) : t :=
  set_base self (Animation.on_finish (base self) callback).

Definition on_start (self : t) (start_callback : Animation.Callback) : t :=
  set_base self (Animation.on_start (base self) start_callback).

Definition get_framerate (self : t) : Z := 10.

Definition _clear (self : t) (w : World) : World :=
  match _image self with
  | Some image => delete image w
  | None => w
  end.

Definition _draw (self : t) (w : World) : t * World :=
  let w1 := _clear self w in
  let '(sprite, w2) := get_image (_angle self) w1 in
  let '(image, w3) := create_image (_position self) sprite w2 in
  (set_image self (Some image), w3).

Definition _has_passed_target (self : t) : bool :=
  let '(dx, dy) := _direction self in
  let '(current_x, current_y) := _position self in
  let '(target_x, target_y) := _target self in
  let moving_left := dy <? 0 in
  let moving_right := dy >? 0 in
  let moving_up := dx <? 0 in
  let moving_down := dx >? 0 in
  if moving_left && (current_y <? target_y) then true
  else if moving_right && (current_y >? target_y) then true
  else if moving_up && (current_x <? target_x) then true
  else if moving_down && (current_x >? target_x) then true
  else false.

Definition _move_one_step (self : t) : t :=
  let '(current_x, current_y) := _position self in
  let '(dx, dy) := _direction self in
  let current_x := current_x + STEP_SIZE * dx in
  let current_y := current_y + STEP_SIZE * dy in
  set_position self (current_x, current_y).

Definition step (self : t) (w : World) : result (bool * t * World) :=
  if _has_passed_target self then Ok (false, self, w)
  else
    let '(self1, w1) := _draw self w in
    Ok (true, _move_one_step self1, w1).

Definition start (self : t) (w : World) : result (t * World) :=
  '(b, w1) <- Animation.start (base self) w ;;
  Ok (set_base self b, w1).

(** A [Raise] keeps no world: when no finish callback was ever assigned,
    the sprite deleted before the exception is not recorded. *)
Definition finish (self : t) (w : World) : result (t * World) :=
  let w1 := _clear self w in
  '(b, w2) <- Animation.finish (base self) w1 ;;
  Ok (set_base self b, w2).

Definition get_frequency (self : t) : result Z :=
  Animation.get_frequency (get_framerate self).

End Defs.

Definition STEP_SIZE_class : Z := 25.

End CrossboltAnimation.

#[export] Instance Crossbolt_Animated {tk : Toolkit} (STEP_SIZE : Z)
  : Animated CrossboltAnimation.t := {
  start := CrossboltAnimation.start;
  step := CrossboltAnimation.step STEP_SIZE;
  finish := CrossboltAnimation.finish;
  get_frequency := CrossboltAnimation.get_frequency
}.

(** ** TimeMachineAnimation *)

Module TimeMachineAnimation.
Section Defs.
Context {tk : Toolkit} {gl : GameLogic}.

Record t : Type := {
  base : Animation.t;
  _game_states : list GameState;
  _draw_game : Game -> World -> World;
  _current_step : Z
}.

Definition __init__ (game_states : list GameState)
  (draw_game_callback : Game -> World -> World) : t :=
  {| base := Animation.__init__ Animation.fresh;
     _game_states := game_states;
     _draw_game := draw_game_callback;
     _current_step := Z.of_nat (length game_states) - 1 |}.

Definition set_base (self : t) (b : Animation.t) : t :=
  {| base := b;
     _game_states := _game_states self;
     _draw_game := _draw_game self;
     _current_step := _current_step self |}.

Definition set_current_step (self : t) (i : Z) : t :=
  {| base := base self;
     _game_states := _game_states self;
     _draw_game := _draw_game self;
     _current_step := i |}.

(** [on_finish], [on_start], [start] and [finish] are inherited from
    [Animation]. *)
Definition on_finish (self : t) (callback : Animation.Callback) : t :=
  set_base self (Animation.on_finish (base self) callback).

Definition on_start (self : t) (start_callback : Animation.Callback) : t :=
  set_base self (Animation.on_start (base self) start_callback).

Definition get_frequency (self : t) : result Z :=
  py_round_truediv 1000 (Z.of_nat (length (_game_states self))).

Definition step (self : t) (w : World) : result (bool * t * World) :=
  if _current_step self <? 0 then Ok (false, self, w)
  else
    current_state <- py_getitem (_game_states self) (_current_step self) ;;
    let game := restore current_state in
    let w1 := _draw_game self game w in
    Ok (true, set_current_step self (_current_step self - 1), w1).

Definition start (self : t) (w : World) : result (t * World) :=
  '(b, w1) <- Animation.start (base self) w ;;
  Ok (set_base self b, w1).

Definition finish (self : t) (w : World) : result (t * World) :=
  '(b, w1) <- Animation.finish (base self) w ;;
  Ok (set_base self b, w1).

End Defs.
End TimeMachineAnimation.

#[export] Instance TimeMachine_Animated {tk : Toolkit} {gl : GameLogic}
  : Animated TimeMachineAnimation.t := {
  start := TimeMachineAnimation.start;
  step := TimeMachineAnimation.step;
  finish := TimeMachineAnimation.finish;
  get_frequency := TimeMachineAnimation.get_frequency
}.

(** ** AnimationManager *)

(** What the manager calls on the animation, in order.  [Step None] is a
    [step] that raised. *)
Inductive call : Type :=
| Start
| Step (returned : option bool)
| GetFrequency
| Finish.

(** What is left behind when a call into the manager returns: nothing, the
    timer armed by [canvas.after], or the exception that escaped (the world
    of the run is then the one before the call that raised). *)
Inductive timer : Type :=
| Idle
| After (ms : Z)
| Failed (e : exn).

Module AnimationManager.
Section Defs.
Context {tk : Toolkit} {A : Type} {an : Animated A}.

Record run : Type := {
  animation : A;
  world : World;
  trace : list call;
  pending : timer
}.

(** The callback handed to [canvas.after] is [_step_animation] on the same
    animation, so the armed timer needs no closure of its own. *)
Definition _step_animation (a : A) (w : World) (tr : list call) : run :=
  match step a w with
  | Raise e =>
      {| animation := a; world := w;
         trace := tr ++ [Step None]; pending := Failed e |}
  | Ok (false, a1, w1) =>
      match finish a1 w1 with
      | Raise e =>
          {| animation := a1; world := w1;
             trace := tr ++ [Step (Some false); Finish];
             pending := Failed e |}
      | Ok (a2, w2) =>
          {| animation := a2; world := w2;
             trace := tr ++ [Step (Some false); Finish];
             pending := Idle |}
      end
  | Ok (true, a1, w1) =>
      match get_frequency a1 with
      | Raise e =>
          {| animation := a1; world := w1;
             trace := tr ++ [Step (Some true); GetFrequency];
             pending := Failed e |}
      | Ok ms =>
          {| animation := a1; world := w1;
             trace := tr ++ [Step (Some true); GetFrequency];
             pending := After ms |}
      end
  end.

Definition play_animation (a : A) (w : World) : run :=
  match start a w with
  | Raise e =>
      {| animation := a; world := w; trace := [Start]; pending := Failed e |}
  | Ok (a0, w0) => _step_animation a0 w0 [Start]
  end.

(** The toolkit's event loop: it fires the armed timer, at most [fuel]
    times. *)
Fixpoint mainloop (fuel : nat) (r : run) : run :=
  match fuel with
  | O => r
  | S fuel' =>
      match pending r with
      | After _ =>
          mainloop fuel' (_step_animation (animation r) (world r) (trace r))
      | _ => r
      end
  end.

Definition drive (fuel : nat) (a : A) (w : World) : run :=
  mainloop fuel (play_animation a w).

End Defs.
End AnimationManager.

(** ** Observers used by the statements *)

Section Observers.
Context {tk : Toolkit} {A : Type} {an : Animated A}.

(** [n] successive calls of [step], whatever they return: the values
    returned, the object and the world afterwards. *)
Fixpoint step_n (n : nat) (a : A) (w : World)
  : result (list bool * A * World) :=
  match n with
  | O => Ok ([], a, w)
  | S n' =>
      '(b, a1, w1) <- step a w ;;
      '(bs, a2, w2) <- step_n n' a1 w1 ;;
      Ok (b :: bs, a2, w2)
  end.

(** [k] frames: [k] calls of [step] that return [True], each followed by a
    successful [get_frequency]. *)
Fixpoint frames (k : nat) (a : A) (w : World) : option (A * World) :=
  match k with
  | O => Some (a, w)
  | S k' =>
      match step a w with
      | Ok (true, a1, w1) =>
          match get_frequency a1 with
          | Ok _ => frames k' a1 w1
          | Raise _ => None
          end
      | _ => None
      end
  end.

End Observers.

Definition frames_trace (k : nat) : list call :=
  concat (repeat [Step (Some true); GetFrequency] k).

(** The shape of a trace of the manager: one [Start], whole frames, and then
    nothing yet, a [step] that raised, or the closing [step] with [Finish]. *)
Definition sequenced (tr : list call) : Prop :=
  exists k tail,
    tr = Start :: frames_trace k ++ tail /\
    (tail = [] \/ tail = [Step None] \/ tail = [Step (Some false); Finish]).

Definition call_eq_dec (x y : call) : {x = y} + {x <> y}.
Proof. repeat decide equality. Defined.

(** What the shape says call by call: [start] comes first and once, [finish]
    at most once, nothing but [finish] follows a [step] that returned
    [False], and [finish] closes the trace right after such a [step]. *)
Definition lifecycle (tr : list call) : Prop :=
  hd_error tr = Some Start /\
  count_occ call_eq_dec tr Start = 1%nat /\
  (count_occ call_eq_dec tr Finish <= 1)%nat /\
  (forall pre post, tr = pre ++ Step (Some false) :: post -> post = [Finish]) /\
  (forall pre post,
      tr = pre ++ Finish :: post ->
      post = [] /\ exists pre', pre = pre' ++ [Step (Some false)]).

(** The timer is armed only between whole frames. *)
Definition between_frames {tk : Toolkit} {A : Type}
  (r : AnimationManager.run (A := A)) : Prop :=
  exists k, AnimationManager.trace r = Start :: frames_trace k.

(** ** Geometry of a flight *)

Definition unit_vectors : list (Z * Z) := [(0, 1); (0, -1); (1, 0); (-1, 0)].

(** Signed distance still to cover: the offset from the current position to
    the target, projected on the direction of travel. *)
Definition travel_offset {tk : Toolkit} (a : CrossboltAnimation.t) : Z :=
  let '(dx, dy) := CrossboltAnimation._direction a in
  let '(current_x, current_y) := CrossboltAnimation._position a in
  let '(target_x, target_y) := CrossboltAnimation._target a in
  (target_x - current_x) * dx + (target_y - current_y) * dy.

(** The overshoot test as the specification words it: one comparison of the
    signed distance from the target to the position along the direction. *)
Definition passed_by_signed_distance {tk : Toolkit}
  (a : CrossboltAnimation.t) : bool :=
  let '(dx, dy) := CrossboltAnimation._direction a in
  let '(current_x, current_y) := CrossboltAnimation._position a in
  let '(target_x, target_y) := CrossboltAnimation._target a in
  0 <? (current_x - target_x) * dx + (current_y - target_y) * dy.

Definition ceil_div (a b : Z) : Z := (a + b - 1) / b.

(** The values returned by [n] calls of [step] when the offset is [D]. *)
Definition flight_returns (step_size D : Z) (n : nat) : list bool :=
  if D <? 0 then repeat false n
  else
    let k := Z.to_nat (D / step_size + 1) in
    repeat true (Nat.min n k) ++ repeat false (n - k).

(** ** Observers of a replay *)

Section ReplayObservers.
Context {tk : Toolkit} {gl : GameLogic}.
Variable states : list GameState.
Variable draw : Game -> World -> World.

(** What one frame of a replay does to the world. *)
Definition redraw (w : World) (s : GameState) : World := draw (restore s) w.

(** The replay with its cursor just below index [i]. *)
Definition replay_at (i : nat) : TimeMachineAnimation.t :=
  TimeMachineAnimation.set_current_step
    (TimeMachineAnimation.__init__ states draw) (Z.of_nat i - 1).

End ReplayObservers.

(** ** A recording toolkit

    A test double of the canvas and of the game logic: the world is the list
    of the operations performed so far. *)

Module Recording.

Inductive op : Type :=
| Created (item : nat) (at_pixel : Pixel) (angle : option Z)
| Deleted (item : nat)
| Drew (game : Z)
| Hooked (tag : Z).

#[export] Instance toolkit : Toolkit := {
  World := list op;
  Item := nat;
  Image := option Z;
  get_image := fun angle w => (angle, w);
  create_image := fun p sprite w =>
    (length w, w ++ [Created (length w) p sprite]);
  delete := fun item w => w ++ [Deleted item]
}.

#[export] Instance game_logic : GameLogic := {
  GameState := Z;
  Game := Z;
  restore := fun s => s
}.

Definition draw (g : Z) (w : list op) : list op := w ++ [Drew g].

Definition hook (tag : Z) (w : list op) : list op := w ++ [Hooked tag].

Definition grid (cell : Z) : AbstractGrid.t :=
  {| AbstractGrid._cell_width := cell; AbstractGrid._cell_height := cell |}.

End Recording.

(** ** The rest of AbstractGrid and its subclasses (task1.py) *)

Module GridGeometry.

(** [AbstractGrid.__init__(master, rows, cols, width, height)]: [_rows] and
    [_cols] are stored and never read again, so the object is its two cell
    sizes.  [width // cols] is evaluated before [height // rows]; both raise
    on a zero divisor. *)
Definition __init__ (rows cols width height : Z) : result AbstractGrid.t :=
  if cols =? 0 then Raise ZeroDivisionError
  else if rows =? 0 then Raise ZeroDivisionError
  else Ok {| AbstractGrid._cell_width := width / cols;
             AbstractGrid._cell_height := height / rows |}.

Definition get_bbox (self : AbstractGrid.t) (position : Z * Z)
  : Z * Z * Z * Z :=
  let '(row, col) := position in
  let x_min := col * AbstractGrid._cell_width self in
  let y_min := row * AbstractGrid._cell_height self in
  let x_max := x_min + AbstractGrid._cell_width self in
  let y_max := y_min + AbstractGrid._cell_height self in
  (x_min, y_min, x_max, y_max).

(** The tuple is built left to right: the row first. *)
Definition pixel_to_position (self : AbstractGrid.t) (pixel : Pixel)
  : result (Z * Z) :=
  let '(x_coord, y_coord) := pixel in
  if AbstractGrid._cell_height self =? 0 then Raise ZeroDivisionError
  else if AbstractGrid._cell_width self =? 0 then Raise ZeroDivisionError
  else Ok (y_coord / AbstractGrid._cell_height self,
           x_coord / AbstractGrid._cell_width self).

End GridGeometry.

(** [CELL_SIZE] and [INVENTORY_WIDTH] come from [constants], which is not
    part of the sources: they are arguments. *)
Module BasicMap.

Definition __init__ (CELL_SIZE size : Z) : result AbstractGrid.t :=
  let width := CELL_SIZE * size in
  let height := width in
  GridGeometry.__init__ size size width height.

End BasicMap.

(** ** InventoryView (task1.py) *)

(** The pickups of [a2_solution], as far as the view uses them.
    [any_active items] stands for [inventory.any_active()] on the inventory
    that holds [items]; [class_name] for [pickup.__class__.__name__]. *)
Class InventoryLogic : Type := {
  Pickup : Type;
  PickupName : Type;
  class_name : Pickup -> PickupName;
  get_lifetime : Pickup -> Z;
  is_active : Pickup -> bool;
  toggle_active : Pickup -> Pickup;
  any_active : list Pickup -> bool
}.

(** The list whose element at index [i] is now [x]: what a list looks like
    after the object it holds at [i] was mutated. *)
Fixpoint list_set {X : Type} (l : list X) (i : nat) (x : X) : list X :=
  match l, i with
  | [], _ => []
  | _ :: rest, O => x :: rest
  | y :: rest, S i' => y :: list_set rest i' x
  end.

Module InventoryView.

Inductive colour : Type :=
| Black
| White
| DARK_PURPLE.

Section Defs.
Context {il : InventoryLogic}.

Inductive text : Type :=
| Title
| Name (name : PickupName)
| Lifetime (lifetime : Z).

(** The calls made on the canvas, in order. *)
Inductive canvas_call : Type :=
| DeleteAll
| CreateText (at_pixel : Pixel) (content : text) (fill : colour)
| CreateRectangle (box : Z * Z * Z * Z) (fill : colour).

Variable INVENTORY_WIDTH : Z.
Variable CELL_SIZE : Z.

Definition __init__ (rows : Z) : result AbstractGrid.t :=
  GridGeometry.__init__ rows 2 INVENTORY_WIDTH (CELL_SIZE * rows).

Definition _draw_inventory_label (self : AbstractGrid.t)
  : list canvas_call :=
  let '(middle_x, _, _, _) := GridGeometry.get_bbox self (0, 1) in
  let '(_, middle_y) := AbstractGrid.get_position_center self (0, 0) in
  [CreateText (middle_x, middle_y) Title DARK_PURPLE].

(** The body of the loop of [draw], for the pickup at index [i]. *)
Definition draw_pickup (self : AbstractGrid.t) (i : Z) (pickup : Pickup)
  : list canvas_call :=
  let entity_name := class_name pickup in
  let lifetime := get_lifetime pickup in
  let entity_pos := AbstractGrid.get_position_center self (i + 1, 0) in
  let lifetime_pos := AbstractGrid.get_position_center self (i + 1, 1) in
  let highlight :=
    if is_active pickup then
      let '(x_min, y_min, _, y_max) :=
        GridGeometry.get_bbox self (i + 1, 0) in
      let x_max := x_min + INVENTORY_WIDTH in
      [CreateRectangle (x_min, y_min, x_max, y_max) DARK_PURPLE]
    else [] in
  let text_colour := if is_active pickup then White else Black in
  highlight ++
  [CreateText entity_pos (Name entity_name) text_colour;
   CreateText lifetime_pos (Lifetime lifetime) text_colour].

Fixpoint draw_from (self : AbstractGrid.t) (i : Z) (items : list Pickup)
  : list canvas_call :=
  match items with
  | [] => []
  | pickup :: rest => draw_pickup self i pickup ++ draw_from self (i + 1) rest
  end.

Definition draw (self : AbstractGrid.t) (inventory : list Pickup)
  : list canvas_call :=
  _draw_inventory_label self ++ draw_from self 0 inventory.

(** The inventory afterwards and the calls made on the canvas. *)
Definition use_item (self : AbstractGrid.t) (pixel : Pixel)
  (inventory : list Pickup) : result (list Pickup * list canvas_call) :=
  position <- GridGeometry.pixel_to_position self pixel ;;
  let row := fst position - 1 in
  let items := inventory in
  if (0 <=? row) && (row <? Z.of_nat (length items)) then
    item <- py_getitem items row ;;
    if is_active item || negb (any_active inventory) then
      let inventory1 := list_set items (Z.to_nat row) (toggle_active item) in
      Ok (inventory1, DeleteAll :: draw self inventory1)
    else Ok (inventory, [])
  else Ok (inventory, []).

End Defs.
End InventoryView.

Definition count_active {il : InventoryLogic} (items : list Pickup) : nat :=
  length (filter is_active items).

(** ** MastersGraphicalInterface (csse7030.py) *)

Module MastersGraphicalInterface.
Section Defs.
Context {tk : Toolkit} {gl : GameLogic}.

(** A [Position] of the game logic is its [(get_x(), get_y())]. *)
Definition Position : Type := (Z * Z)%type.

Variable STEP_SIZE : Z.

(** [self._grid], and the two methods handed over as hooks, for the zombie
    at a position: [_freeze_zombie] and [_remove_zombie] only call the game
    logic and [draw]. *)
Variable _grid : AbstractGrid.t.
Variable _freeze_zombie : Position -> World -> World.
Variable _remove_zombie : Position -> World -> World.

(** [player_pos] is [game.get_grid().find_player()] and [position] the first
    component of [first].  What is returned is what is left when
    [play_animation] returns. *)
Definition _shoot_at_zombie (player_pos position : Position) (w : World)
  : result (AnimationManager.run (A := CrossboltAnimation.t)) :=
  let start_pos := (snd player_pos, fst player_pos) in
  let goal_pos := (snd position, fst position) in
  crossbolt_animation <- CrossboltAnimation.__init__ _grid start_pos goal_pos ;;
  let crossbolt_animation :=
    CrossboltAnimation.on_start crossbolt_animation
      (_freeze_zombie position) in
  let crossbolt_animation :=
    CrossboltAnimation.on_finish crossbolt_animation
      (_remove_zombie position) in
  Ok (AnimationManager.play_animation
        (an := Crossbolt_Animated STEP_SIZE) crossbolt_animation w).

(** The items of the inventory, [isinstance(item, TimeMachine)] and what the
    view reads from a time machine or does with it. *)
Variable InventoryItem : Type.
Variable TimeMachineItem : Type.
Variable as_time_machine : InventoryItem -> option TimeMachineItem.
Variable get_game_states : TimeMachineItem -> list GameState.
Variable draw : Game -> World -> World.
Variable pause : World -> World.
Variable _use_time_machine : TimeMachineItem -> World -> World.

(** The loop of [_reverse_time]: it does not stop at the first one. *)
Fixpoint find_time_machine (time_machine : option TimeMachineItem)
  (items : list InventoryItem) : option TimeMachineItem :=
  match items with
  | [] => time_machine
  | item :: rest =>
      match as_time_machine item with
      | Some found => find_time_machine (Some found) rest
      | None => find_time_machine time_machine rest
      end
  end.

(** [None] is the early [return]. *)
Definition _reverse_time (items : list InventoryItem) (w : World)
  : option (AnimationManager.run (A := TimeMachineAnimation.t)) :=
  match find_time_machine None items with
  | None => None
  | Some time_machine =>
      let game_states := get_game_states time_machine in
      let time_machine_animation :=
        TimeMachineAnimation.__init__ game_states draw in
      let time_machine_animation :=
        TimeMachineAnimation.on_start time_machine_animation pause in
      let time_machine_animation :=
        TimeMachineAnimation.on_finish time_machine_animation
          (_use_time_machine time_machine) in
      Some (AnimationManager.play_animation time_machine_animation w)
  end.

End Defs.
End MastersGraphicalInterface.

(** ** Observers of a run *)

Definition is_step (c : call) : bool :=
  match c with
  | Step _ => true
  | _ => false
  end.

Definition count_steps (tr : list call) : nat := length (filter is_step tr).

(** How many calls of [step] return [True] when the offset is [D]. *)
Definition true_steps (step_size D : Z) : nat :=
  if D <? 0 then 0%nat else Z.to_nat (D / step_size + 1).

(** Where the sprite is after [k] moves. *)
Definition position_after {tk : Toolkit} (step_size : Z)
  (a : CrossboltAnimation.t) (k : nat) : Pixel :=
  let '(current_x, current_y) := CrossboltAnimation._position a in
  let '(dx, dy) := CrossboltAnimation._direction a in
  (current_x + Z.of_nat k * step_size * dx,
   current_y + Z.of_nat k * step_size * dy).

(** One move, as a vector. *)
Definition step_vector {tk : Toolkit} (step_size : Z)
  (a : CrossboltAnimation.t) : Z * Z :=
  (step_size * fst (CrossboltAnimation._direction a),
   step_size * snd (CrossboltAnimation._direction a)).

(** On the recording toolkit: [k] sprites, each created and then deleted,
    the first one, with handle [first], at [p], the next ones one move
    further each. *)
Fixpoint sprite_calls (first : nat) (p move : Z * Z) (angle : option Z)
  (k : nat) : list Recording.op :=
  match k with
  | O => []
  | S k' =>
      Recording.Created first p angle :: Recording.Deleted first ::
      sprite_calls (first + 2) (fst p + fst move, snd p + snd move)
        move angle k'
  end.

(** ** HighScorePrompt.save_score (task2.py) *)

(** A string is the list of its code points. *)
Definition text : Type := list Z.

Definition comma : Z := 44.
Definition line_feed : Z := 10.
Definition carriage_return : Z := 13.

(** [c.isspace()]: the code points that [str.strip()] removes. *)
Definition is_space (c : Z) : bool :=
  ((9 <=? c) && (c <=? 13)) || ((28 <=? c) && (c <=? 32)) ||
  (c =? 133) || (c =? 160) || (c =? 5760) ||
  ((8192 <=? c) && (c <=? 8202)) || (c =? 8232) || (c =? 8233) ||
  (c =? 8239) || (c =? 8287) || (c =? 12288).

Fixpoint lstrip (s : text) : text :=
  match s with
  | [] => []
  | c :: rest => if is_space c then lstrip rest else s
  end.

Definition rstrip (s : text) : text := rev (lstrip (rev s)).

(** [s.strip()] *)
Definition strip (s : text) : text := rstrip (lstrip s).

(** [s.split(sep)] for a separator of one character: never an empty list. *)
Fixpoint split_on (sep : Z) (s : text) : list text :=
  match s with
  | [] => [[]]
  | c :: rest =>
      if c =? sep then [] :: split_on sep rest
      else
        match split_on sep rest with
        | field :: fields => (c :: field) :: fields
        | [] => [[c]]
        end
  end.

(** [l[:k]] *)
Definition py_slice_to {X : Type} (l : list X) (k : Z) : list X :=
  if k <? 0 then firstn (Z.to_nat (Z.of_nat (length l) + k)) l
  else firstn (Z.to_nat k) l.

Module HighScorePrompt.

Definition entry : Type := (text * Z)%type.

(** [scores.sort(key=lambda item: item[1])].  The sort of Python is stable;
    there is one stable sorted arrangement of a list, and inserting the
    elements from the last to the first, each before the first element that
    is not smaller, builds it. *)
Fixpoint insert_by_score (e : entry) (l : list entry) : list entry :=
  match l with
  | [] => [e]
  | x :: rest =>
      if snd e <=? snd x then e :: x :: rest
      else x :: insert_by_score e rest
  end.

Definition sort_by_score (l : list entry) : list entry :=
  fold_right insert_by_score [] l.

Section Defs.

(** [str] and [int] on a score; [MAX_ALLOWED_HIGH_SCORES] comes from
    [constants]. *)
Variable py_str : Z -> text.
Variable py_int : text -> result Z.
Variable MAX_ALLOWED_HIGH_SCORES : Z.

(** [f"{name},{score}\n"] *)
Definition format_line (e : entry) : text :=
  fst e ++ [comma] ++ py_str (snd e) ++ [line_feed].

(** [name, score = line.strip().split(",")] and [(name, int(score))]:
    unpacking anything but two fields raises [ValueError]. *)
Definition parse_line (line : text) : result entry :=
  match split_on comma (strip line) with
  | [name; score] => value <- py_int score ;; Ok (name, value)
  | _ => Raise ValueError
  end.

Fixpoint read_scores (lines : list text) : result (list entry) :=
  match lines with
  | [] => Ok []
  | line :: rest =>
      e <- parse_line line ;;
      es <- read_scores rest ;;
      Ok (e :: es)
  end.

(** The list after the new score was added. *)
Definition new_scores (scores : list entry) (name : text) (time : Z)
  : list entry :=
  let scores := scores ++ [(name, time)] in
  let scores := sort_by_score scores in
  if Z.of_nat (length scores) >? MAX_ALLOWED_HIGH_SCORES
  then py_slice_to scores MAX_ALLOWED_HIGH_SCORES
  else scores.

(** The file is the list of its lines, [None] when opening it raises
    [FileNotFoundError], which is caught; what is returned is the lines
    written.  The file is opened for writing after the reading is over:
    nothing is written when the reading raises. *)
Definition save_score (file : option (list text)) (name : text) (time : Z)
  : result (list text) :=
  scores <- match file with
            | Some lines => read_scores lines
            | None => Ok []
            end ;;
  Ok (map format_line (new_scores scores name time)).

End Defs.
End HighScorePrompt.



(** Scores in ascending order. *)
Fixpoint ascending (l : list HighScorePrompt.entry) : Prop :=
  match l with
  | [] => True
  | x :: rest => (forall y, In y rest -> snd x <= snd y) /\ ascending rest
  end.

(** The entries that a new score of [time] does not beat, and the others. *)
Definition not_worse (time : Z) (e : HighScorePrompt.entry) : bool :=
  snd e <=? time.

Definition worse (time : Z) (e : HighScorePrompt.entry) : bool :=
  time <? snd e.

Definition commas (s : text) : nat := count_occ Z.eq_dec s comma.

(** Decimal digits, for concrete runs. *)
Module Decimal.

Fixpoint digits (fuel : nat) (n : Z) : text :=
  match fuel with
  | O => []
  | S fuel' =>
      if n <? 10 then [48 + n]
      else digits fuel' (n / 10) ++ [48 + n mod 10]
  end.

Definition str (n : Z) : text :=
  if n <? 0 then 45 :: digits (S (Z.to_nat (- n))) (- n)
  else digits (S (Z.to_nat n)) n.

(** Digits, with single underscores between them as [int] allows. *)
Fixpoint value (acc : Z) (after_digit : bool) (s : text) : result Z :=
  match s with
  | [] => if after_digit then Ok acc else Raise ValueError
  | c :: rest =>
      if (48 <=? c) && (c <=? 57)
      then value (10 * acc + (c - 48)) true rest
      else if (c =? 95) && after_digit then value acc false rest
      else Raise ValueError
  end.

(** White space around, a sign, digits.  Only the digits 0 to 9 are read:
    [int] also reads the decimal digits of other scripts. *)
Definition int (s : text) : result Z :=
  match strip s with
  | 45 :: rest => v <- value 0 false rest ;; Ok (- v)
  | 43 :: rest => value 0 false rest
  | rest => value 0 false rest
  end.

End Decimal.

(** An inventory for concrete runs: a pickup is its lifetime and its
    flag. *)
Module Shelf.

#[export] Instance inventory_logic : InventoryLogic := {
  Pickup := (Z * bool)%type;
  PickupName := Z;
  class_name := fun p => 0;
  get_lifetime := fun p => fst p;
  is_active := fun p => snd p;
  toggle_active := fun p => (fst p, negb (snd p));
  any_active := fun items => existsb (fun p => snd p) items
}.

Definition items (l : list (Z * bool)) : list (@Pickup inventory_logic) := l.

End Shelf.

(** ** ImageGraphicalInterface._draw_background (task2.py) *)

(** [range(n)] *)
Definition py_range (n : Z) : list Z := map Z.of_nat (seq 0 (Z.to_nat n)).

Module ImageGraphicalInterface.

(** [ImageMap.draw_entity(position, tile_type)] creates one image, at the
    centre of the cell; the calls of [_draw_background], all for the tile
    [BACK_GROUND], are the pixels they draw at, in order. *)
Definition draw_entity (_grid : AbstractGrid.t) (position : Z * Z)
  : list Pixel :=
  let pixel := AbstractGrid.get_position_center _grid position in
  [pixel].

Definition _draw_background (_grid : AbstractGrid.t) (_size : Z)
  : list Pixel :=
  flat_map
    (fun i => flat_map (fun j => draw_entity _grid (i, j)) (py_range _size))
    (py_range _size).

End ImageGraphicalInterface.

(** * Properties *)

Ltac split_comparisons :=
  rewrite ?Z.gtb_ltb; simpl;
  repeat match goal with
    | |- context [?x <? ?y] => destruct (Z.ltb_spec x y)
    end; simpl; try reflexivity; try lia.


(** ** Construction of a flight *)

Section CrossboltConstruction.
Context {tk : Toolkit}.

Import CrossboltAnimation.

Lemma direction_is_unit (start target d : Z * Z) :
  _direction_from_positions start target = Ok d -> In d unit_vectors.
Proof.
  destruct start as [sx sy], target as [tx ty].
  unfold _direction_from_positions.
  destruct (sx <? tx); [intros [= <-]; simpl; auto|].
  destruct (sx >? tx); [intros [= <-]; simpl; auto|].
  destruct (sy <? ty); [intros [= <-]; simpl; auto|].
  destruct (sy >? ty); [intros [= <-]; simpl; auto 6|].
  discriminate.
Qed.

Lemma init_fields (canvas : AbstractGrid.t) (start target : Z * Z) (a : t) :
  __init__ canvas start target = Ok a ->
  _direction_from_positions start target = Ok (_direction a) /\
  _position a = AbstractGrid.get_position_center canvas start /\
  _target a = AbstractGrid.get_position_center canvas target /\
  _image a = None /\
  base a = Animation.fresh.
Proof.
  unfold __init__.
  destruct (_direction_from_positions start target) as [d|e]; simpl.
  - intros [= <-]; simpl; auto.
  - discriminate.
Qed.

(** C4. Building a flight whose start cell is its target cell raises
    [ValueError] in the constructor, for every grid and every cell: no object
    is returned on which [step] could be called or which could be handed to
    the manager; so from (2,2) to (2,2). *)
Theorem crossbolt_same_cell_raises :
  (forall (canvas : AbstractGrid.t) (cell : Z * Z),
      __init__ canvas cell cell = Raise ValueError) /\
  (forall canvas : AbstractGrid.t,
      __init__ canvas (2, 2) (2, 2) = Raise ValueError).
Proof.
  assert (H : forall canvas cell, __init__ canvas cell cell = Raise ValueError).
  { intros canvas [r c]; unfold __init__, _direction_from_positions.
    rewrite !Z.ltb_irrefl, !Z.gtb_ltb, !Z.ltb_irrefl; reflexivity. }
  split; [exact H | intros canvas; apply H].
Qed.

(** C8. For two distinct cells the constructor succeeds and the direction it
    stores is one of the four axis-aligned unit vectors; it depends on the two
    cells only (any other grid gives the same one); when the rows differ the
    direction is the one of the row difference, whatever the columns are, and
    the column difference decides only between cells of one row. *)
Theorem crossbolt_direction_axis_aligned
  (canvas : AbstractGrid.t) (start target : Z * Z) :
  start <> target ->
  exists a,
    __init__ canvas start target = Ok a /\
    In (_direction a) unit_vectors /\
    (forall canvas' a',
        __init__ canvas' start target = Ok a' ->
        _direction a' = _direction a) /\
    (fst start <> fst target ->
     _direction a = (0, Z.sgn (fst target - fst start))) /\
    (fst start = fst target ->
     _direction a = (Z.sgn (snd target - snd start), 0)).
Proof.
  intros Hne.
  destruct (_direction_from_positions start target) as [d|e] eqn:Hd.
  - exists {| base := Animation.fresh;
              _position := AbstractGrid.get_position_center canvas start;
              _target := AbstractGrid.get_position_center canvas target;
              _direction := d;
              _angle := _angle_from_direction d;
              _image := None |}.
    split; [unfold __init__; rewrite Hd; reflexivity|].
    split; [simpl; eapply direction_is_unit; eassumption|].
    split.
    { intros canvas' a' Ha'. apply init_fields in Ha' as [Ha' _].
      rewrite Hd in Ha'. injection Ha' as <-. reflexivity. }
    simpl. destruct start as [sx sy], target as [tx ty]; simpl.
    unfold _direction_from_positions in Hd.
    rewrite !Z.gtb_ltb in Hd.
    destruct (Z.ltb_spec sx tx).
    { injection Hd as <-. split; intros; [|lia].
      rewrite Z.sgn_pos by lia; reflexivity. }
    destruct (Z.ltb_spec tx sx).
    { injection Hd as <-. split; intros; [|lia].
      rewrite Z.sgn_neg by lia; reflexivity. }
    destruct (Z.ltb_spec sy ty).
    { injection Hd as <-. split; intros; [lia|].
      rewrite Z.sgn_pos by lia; reflexivity. }
    destruct (Z.ltb_spec ty sy).
    { injection Hd as <-. split; intros; [lia|].
      rewrite Z.sgn_neg by lia; reflexivity. }
    discriminate.
  - exfalso. destruct start as [sx sy], target as [tx ty].
    unfold _direction_from_positions in Hd.
    rewrite !Z.gtb_ltb in Hd.
    destruct (Z.ltb_spec sx tx); [discriminate|].
    destruct (Z.ltb_spec tx sx); [discriminate|].
    destruct (Z.ltb_spec sy ty); [discriminate|].
    destruct (Z.ltb_spec ty sy); [discriminate|].
    apply Hne; f_equal; lia.
Qed.

Lemma has_passed_target_offset (a : t) :
  In (_direction a) unit_vectors ->
  _has_passed_target a = (travel_offset a <? 0).
Proof.
  unfold _has_passed_target, travel_offset.
  destruct (_direction a) as [dx dy], (_position a) as [cx cy],
    (_target a) as [tx ty].
  intros Hd; simpl in Hd.
  destruct Hd as [H|[H|[H|[H|[]]]]]; injection H as <- <-;
    split_comparisons.
Qed.

(** C9. For a direction among the four unit vectors, and any position and
    target, the four-branch test of [_has_passed_target] is the single
    comparison "the signed distance from the target to the position along the
    direction is positive". *)
Theorem has_passed_target_is_signed_distance (a : t) :
  In (_direction a) unit_vectors ->
  _has_passed_target a = passed_by_signed_distance a.
Proof.
  unfold _has_passed_target, passed_by_signed_distance.
  destruct (_direction a) as [dx dy], (_position a) as [cx cy],
    (_target a) as [tx ty].
  intros Hd; simpl in Hd.
  destruct Hd as [H|[H|[H|[H|[]]]]]; injection H as <- <-;
    split_comparisons.
Qed.

End CrossboltConstruction.

(** ** The flight, step by step *)

Section CrossboltFlight.
Context {tk : Toolkit}.
Variable STEP_SIZE : Z.

Import CrossboltAnimation.

Lemma init_offset (canvas : AbstractGrid.t) (start target : Z * Z) (a : t) :
  0 < AbstractGrid._cell_width canvas ->
  0 < AbstractGrid._cell_height canvas ->
  __init__ canvas start target = Ok a ->
  In (_direction a) unit_vectors /\ 0 < travel_offset a /\
  travel_offset a =
    (if fst start =? fst target
     then Z.abs (snd target - snd start) * AbstractGrid._cell_width canvas
     else Z.abs (fst target - fst start) * AbstractGrid._cell_height canvas).
Proof.
  intros Hw Hh Ha.
  apply init_fields in Ha as (Hd & Hp & Ht & _).
  split; [eapply direction_is_unit; eassumption|].
  unfold travel_offset. rewrite Hp, Ht.
  destruct start as [sx sy], target as [tx ty]; simpl.
  unfold _direction_from_positions in Hd. rewrite !Z.gtb_ltb in Hd.
  destruct (Z.ltb_spec sx tx);
    [|destruct (Z.ltb_spec tx sx);
      [|destruct (Z.ltb_spec sy ty);
        [|destruct (Z.ltb_spec ty sy); [|discriminate]]]];
    injection Hd as <-;
    destruct (Z.eqb_spec sx tx); try lia; split; nia.
Qed.

Lemma step_before_target (a : t) (w : World) :
  In (_direction a) unit_vectors ->
  0 <= travel_offset a ->
  exists a1 w1,
    step STEP_SIZE a w = Ok (true, a1, w1) /\
    _direction a1 = _direction a /\
    travel_offset a1 = travel_offset a - STEP_SIZE.
Proof.
  intros Hd Hoff. unfold step.
  rewrite has_passed_target_offset by assumption.
  destruct (Z.ltb_spec (travel_offset a) 0); [lia|].
  unfold _draw.
  destruct (get_image (_angle a) (_clear a w)) as [sprite w2].
  destruct (create_image (_position a) sprite w2) as [image w3].
  eexists _, _; split; [reflexivity|].
  destruct a as [b [cx cy] [tx ty] [dx dy] angle img].
  unfold _move_one_step, travel_offset in *; simpl in *.
  split; [reflexivity|].
  destruct Hd as [E|[E|[E|[E|[]]]]]; injection E as <- <-; lia.
Qed.

Lemma step_past_target (a : t) (w : World) :
  In (_direction a) unit_vectors ->
  travel_offset a < 0 ->
  step STEP_SIZE a w = Ok (false, a, w).
Proof.
  intros Hd Hoff. unfold step.
  rewrite has_passed_target_offset by assumption.
  destruct (Z.ltb_spec (travel_offset a) 0); [reflexivity|lia].
Qed.

Lemma flight_returns_past (D : Z) (n : nat) :
  D < 0 -> flight_returns STEP_SIZE D n = repeat false n.
Proof.
  intros HD. unfold flight_returns.
  destruct (Z.ltb_spec D 0); [reflexivity|lia].
Qed.

Lemma flight_returns_succ (D : Z) (n : nat) :
  0 < STEP_SIZE -> 0 <= D ->
  flight_returns STEP_SIZE D (S n) =
  true :: flight_returns STEP_SIZE (D - STEP_SIZE) n.
Proof.
  intros HS HD. unfold flight_returns.
  destruct (Z.ltb_spec D 0); [lia|].
  destruct (Z.ltb_spec (D - STEP_SIZE) 0).
  - rewrite Z.div_small by lia. simpl.
    rewrite Nat.sub_0_r. destruct n; reflexivity.
  - replace (D / STEP_SIZE + 1) with ((D - STEP_SIZE) / STEP_SIZE + 1 + 1).
    2:{ replace D with ((D - STEP_SIZE) + 1 * STEP_SIZE) at 2 by lia.
        rewrite Z.div_add by lia. lia. }
    assert (0 <= (D - STEP_SIZE) / STEP_SIZE) by (apply Z.div_pos; lia).
    rewrite Z2Nat.inj_add by lia.
    replace (Z.to_nat 1) with 1%nat by reflexivity.
    rewrite Nat.add_1_r. reflexivity.
Qed.

Lemma step_n_crossbolt (n : nat) :
  0 < STEP_SIZE ->
  forall (a : t) (w : World),
    In (_direction a) unit_vectors ->
    exists a' w',
      step_n (an := Crossbolt_Animated STEP_SIZE) n a w =
      Ok (flight_returns STEP_SIZE (travel_offset a) n, a', w').
Proof.
  intros HS. induction n as [|n IH]; intros a w Hd.
  - exists a, w. unfold flight_returns; simpl.
    destruct (travel_offset a <? 0); reflexivity.
  - destruct (Z.lt_ge_cases (travel_offset a) 0) as [Hneg|Hpos].
    + destruct (IH a w Hd) as (a' & w' & Hrun).
      exists a', w'. simpl. rewrite step_past_target by assumption. simpl.
      rewrite Hrun; simpl.
      rewrite !flight_returns_past by assumption. reflexivity.
    + destruct (step_before_target a w Hd Hpos) as (a1 & w1 & Hs & Hd1 & Ho1).
      rewrite <- Hd1 in Hd.
      destruct (IH a1 w1 Hd) as (a' & w' & Hrun).
      exists a', w'. simpl. rewrite Hs; simpl. rewrite Hrun; simpl.
      rewrite flight_returns_succ by assumption. rewrite Ho1. reflexivity.
Qed.

(** C10. A flight that could be built on a grid with positive cell sizes has
    not passed its target at its initial position, the centre of the start
    cell: the first [step] returns [True], after drawing the sprite there. *)
Theorem crossbolt_first_step_draws
  (canvas : AbstractGrid.t) (start target : Z * Z) (a : t) (w : World) :
  0 < AbstractGrid._cell_width canvas ->
  0 < AbstractGrid._cell_height canvas ->
  __init__ canvas start target = Ok a ->
  _position a = AbstractGrid.get_position_center canvas start /\
  _has_passed_target a = false /\
  let '(sprite, w1) := get_image (_angle a) w in
  let '(image, w2) :=
    create_image (AbstractGrid.get_position_center canvas start) sprite w1 in
  step STEP_SIZE a w =
  Ok (true, _move_one_step STEP_SIZE (set_image a (Some image)), w2).
Proof.
  intros Hw Hh Ha.
  destruct (init_offset canvas start target a Hw Hh Ha) as (Hd & Hpos & _).
  apply init_fields in Ha as (_ & Hp & _ & Hi & _).
  split; [assumption|].
  assert (Hnot : _has_passed_target a = false).
  { rewrite has_passed_target_offset by assumption.
    destruct (Z.ltb_spec (travel_offset a) 0); [lia|reflexivity]. }
  split; [assumption|].
  unfold step, _draw, _clear. rewrite Hnot, Hi, Hp.
  destruct (get_image (_angle a) w) as [sprite w1].
  destruct (create_image _ sprite w1) as [image w2]. reflexivity.
Qed.

(** C1, as the code has it. A flight built between two different cells of a
    grid with positive cell sizes has a positive offset [D] along its axis
    (the row difference times the cell height, or between cells of one row
    the column difference times the cell width), and with a positive step
    the first [D / STEP_SIZE + 1] calls of [step] return [True] (the quotient
    rounded down: the sprite is also drawn on the target, or last before it)
    and every later call returns [False]; from (0,0) to (0,3) with a step of
    one cell that is four [True] and then [False]. *)
Theorem crossbolt_true_steps :
  0 < STEP_SIZE ->
  (forall (canvas : AbstractGrid.t) (start target : Z * Z) (a : t)
          (w : World) (n : nat),
      0 < AbstractGrid._cell_width canvas ->
      0 < AbstractGrid._cell_height canvas ->
      __init__ canvas start target = Ok a ->
      let D := travel_offset a in
      let true_steps := Z.to_nat (D / STEP_SIZE + 1) in
      0 < D /\
      D = (if fst start =? fst target
           then Z.abs (snd target - snd start) *
                AbstractGrid._cell_width canvas
           else Z.abs (fst target - fst start) *
                AbstractGrid._cell_height canvas) /\
      exists a' w',
        step_n (an := Crossbolt_Animated STEP_SIZE) n a w =
        Ok (repeat true (Nat.min n true_steps) ++
            repeat false (n - true_steps), a', w')) /\
  (forall (cell_height : Z) (w : World),
      exists a a' w',
        __init__ {| AbstractGrid._cell_width := STEP_SIZE;
                    AbstractGrid._cell_height := cell_height |}
                 (0, 0) (0, 3) = Ok a /\
        _direction a = (1, 0) /\
        step_n (an := Crossbolt_Animated STEP_SIZE) 5 a w =
        Ok ([true; true; true; true; false], a', w')).
Proof.
  intros HS. split.
  - intros canvas start target a w n Hw Hh Ha D true_steps. subst D true_steps.
    destruct (init_offset canvas start target a Hw Hh Ha) as (Hd & Hpos & HD).
    split; [assumption|]. split; [assumption|].
    destruct (step_n_crossbolt n HS a w Hd) as (a' & w' & Hrun).
    exists a', w'. rewrite Hrun. unfold flight_returns.
    destruct (Z.ltb_spec (travel_offset a) 0); [lia|reflexivity].
  - intros ch w.
    set (canvas := {| AbstractGrid._cell_width := STEP_SIZE;
                      AbstractGrid._cell_height := ch |}).
    assert (Ha : exists a, __init__ canvas (0, 0) (0, 3) = Ok a /\
                           _direction a = (1, 0) /\
                           travel_offset a = 3 * STEP_SIZE).
    { eexists; split; [reflexivity|]. split; [reflexivity|].
      unfold travel_offset; simpl. lia. }
    destruct Ha as (a & Ha & Hdir & Hoff).
    assert (Hd : In (_direction a) unit_vectors) by (rewrite Hdir; simpl; auto).
    destruct (step_n_crossbolt 5 HS a w Hd) as (a' & w' & Hrun).
    exists a, a', w'. split; [assumption|]. split; [assumption|].
    rewrite Hrun, Hoff. unfold flight_returns.
    destruct (Z.ltb_spec (3 * STEP_SIZE) 0); [lia|].
    rewrite Z.div_mul by lia. reflexivity.
Qed.

End CrossboltFlight.

(** ** Successive steps, for any animation *)

Section Steps.
Context {tk : Toolkit} {A : Type} {an : Animated A}.

Lemma step_n_app (n m : nat) :
  forall (a a1 a2 : A) (w w1 w2 : World) (bs bs' : list bool),
    step_n n a w = Ok (bs, a1, w1) ->
    step_n m a1 w1 = Ok (bs', a2, w2) ->
    step_n (n + m) a w = Ok (bs ++ bs', a2, w2).
Proof.
  induction n as [|n IH]; intros a a1 a2 w w1 w2 bs bs' Hn Hm.
  - injection Hn as <- <- <-. exact Hm.
  - simpl in *.
    destruct (step a w) as [[[b a0] w0]|e]; simpl in *; [|discriminate].
    destruct (step_n n a0 w0) as [[[bs0 a3] w3]|e] eqn:Hrest; simpl in *;
      [|discriminate].
    injection Hn as <- <- <-.
    rewrite (IH _ _ _ _ _ _ _ _ Hrest Hm). reflexivity.
Qed.

End Steps.

(** ** Replay *)

Section Replay.
Context {tk : Toolkit} {gl : GameLogic}.

Import TimeMachineAnimation.

Variable states : list GameState.
Variable draw : Game -> World -> World.

Lemma replay_at_length :
  replay_at states draw (length states) = __init__ states draw.
Proof. reflexivity. Qed.

Lemma firstn_snoc {X : Type} (l : list X) :
  forall (i : nat) (x : X),
    nth_error l i = Some x -> firstn (S i) l = firstn i l ++ [x].
Proof.
  induction l as [|y l IH]; intros [|i] x H; simpl in *; try discriminate.
  - injection H as <-. reflexivity.
  - f_equal. apply IH. assumption.
Qed.

Lemma step_in_range (self : t) (w : World) (i : nat) (s : GameState) :
  _current_step self = Z.of_nat i ->
  nth_error (_game_states self) i = Some s ->
  step self w =
  Ok (true, set_current_step self (Z.of_nat i - 1),
      _draw_game self (restore s) w).
Proof.
  intros Hc Hs. unfold step, py_getitem. rewrite Hc.
  assert (Hlt : (i < length (_game_states self))%nat)
    by (apply nth_error_Some; congruence).
  destruct (Z.ltb_spec (Z.of_nat i) 0); [lia|].
  destruct (Z.leb_spec 0 (Z.of_nat i)); [|lia].
  destruct (Z.ltb_spec (Z.of_nat i) (Z.of_nat (length (_game_states self))));
    [|lia].
  rewrite Nat2Z.id, Hs. reflexivity.
Qed.

Lemma replay_step (i : nat) (s : GameState) (w : World) :
  nth_error states i = Some s ->
  step (replay_at states draw (S i)) w =
  Ok (true, replay_at states draw i, redraw draw w s).
Proof.
  intros Hs.
  rewrite (step_in_range (replay_at states draw (S i)) w i s).
  - reflexivity.
  - unfold replay_at, set_current_step; cbn [_current_step]. lia.
  - exact Hs.
Qed.

Lemma replay_step_done (w : World) :
  step (replay_at states draw 0) w = Ok (false, replay_at states draw 0, w).
Proof. reflexivity. Qed.

Lemma replay_steps_done (m : nat) (w : World) :
  step_n m (replay_at states draw 0) w =
  Ok (repeat false m, replay_at states draw 0, w).
Proof.
  induction m as [|m IH]; [reflexivity|].
  change (step_n (S m) (replay_at states draw 0) w) with
    ('(b, a1, w1) <- step (replay_at states draw 0) w ;;
     '(bs, a2, w2) <- step_n m a1 w1 ;;
     Ok (b :: bs, a2, w2)).
  rewrite replay_step_done. simpl bind. rewrite IH. reflexivity.
Qed.

Lemma replay_steps (k : nat) :
  forall (i : nat) (w : World),
    (k <= i <= length states)%nat ->
    step_n k (replay_at states draw i) w =
    Ok (repeat true k, replay_at states draw (i - k),
        fold_left (redraw draw) (firstn k (rev (firstn i states))) w).
Proof.
  induction k as [|k IH]; intros i w Hk.
  - rewrite Nat.sub_0_r. reflexivity.
  - destruct i as [|i]; [lia|].
    destruct (nth_error states i) as [s|] eqn:Hs.
    2:{ apply nth_error_None in Hs. lia. }
    change (step_n (S k) (replay_at states draw (S i)) w) with
      ('(b, a1, w1) <- step (replay_at states draw (S i)) w ;;
       '(bs, a2, w2) <- step_n k a1 w1 ;;
       Ok (b :: bs, a2, w2)).
    rewrite (replay_step i s w Hs). simpl bind.
    rewrite IH by lia. simpl bind.
    rewrite (firstn_snoc states i s Hs), rev_app_distr. reflexivity.
Qed.

(** C3. Over a list of [N] snapshots the first [k <= N] calls of [step] all
    return [True] and redraw, in this order, the [k] last snapshots from the
    newest down; the [k]-th call is the one that redraws the snapshot at
    index [N - k]; the call after the [N]-th returns [False], and so does
    every later one, and they draw nothing. *)
Theorem replay_visits_snapshots_backwards (w : World) :
  let N := length states in
  let a := __init__ states draw in
  (forall k : nat,
      (k <= N)%nat ->
      step_n k a w =
      Ok (repeat true k, replay_at states draw (N - k),
          fold_left (redraw draw) (firstn k (rev states)) w)) /\
  (forall k : nat,
      (1 <= k <= N)%nat ->
      exists s wk,
        nth_error states (N - k) = Some s /\
        step_n (k - 1) a w =
        Ok (repeat true (k - 1), replay_at states draw (N - k + 1), wk) /\
        step (replay_at states draw (N - k + 1)) wk =
        Ok (true, replay_at states draw (N - k), draw (restore s) wk)) /\
  (forall m : nat,
      step_n (N + m) a w =
      Ok (repeat true N ++ repeat false m, replay_at states draw 0,
          fold_left (redraw draw) (rev states) w)).
Proof.
  intros N a.
  assert (Hrun : forall k : nat,
             (k <= N)%nat ->
             step_n k a w =
             Ok (repeat true k, replay_at states draw (N - k),
                 fold_left (redraw draw) (firstn k (rev states)) w)).
  { intros k Hk. subst a. rewrite <- replay_at_length.
    rewrite replay_steps by (subst N; lia).
    rewrite firstn_all. reflexivity. }
  split; [exact Hrun|]. split.
  - intros k Hk.
    destruct (nth_error states (N - k)) as [s|] eqn:Hs.
    2:{ apply nth_error_None in Hs. subst N. lia. }
    exists s, (fold_left (redraw draw) (firstn (k - 1) (rev states)) w).
    split; [reflexivity|]. split.
    + rewrite Hrun by lia.
      replace (N - (k - 1))%nat with (N - k + 1)%nat by lia. reflexivity.
    + rewrite Nat.add_1_r. apply replay_step. assumption.
  - intros m. eapply step_n_app.
    + apply Hrun. lia.
    + rewrite Nat.sub_diag, firstn_all2.
      * apply replay_steps_done.
      * rewrite length_rev. subst N. lia.
Qed.

(** C6, as the code has it. Over [N > 0] snapshots the interval is 1000 ms
    divided by [N] and rounded to the nearest integer, a tie going to the
    even one: the budget that the replay is fitted in is one second, and four
    snapshots are 250 ms apart.  The [N] intervals of the whole replay add
    up to the budget within [N / 2] ms, and to the budget itself when [N]
    divides 1000; they do not whatever the length. *)
Theorem replay_frequency_is_1000_over_n :
  states <> [] ->
  let N := Z.of_nat (length states) in
  exists ms,
    get_frequency (__init__ states draw) = Ok ms /\
    2 * Z.abs (ms * N - 1000) <= N /\
    (2 * Z.abs (ms * N - 1000) = N -> Z.even ms = true) /\
    (N = 4 -> ms = 250) /\
    (1000 mod N = 0 -> ms * N = 1000).
Proof.
  intros Hne N.
  assert (HN : 0 < N).
  { subst N. destruct states; [congruence|simpl; lia]. }
  unfold get_frequency; simpl _game_states. fold N. clearbody N.
  unfold py_round_truediv.
  destruct (Z.eqb_spec N 0); [lia|].
  pose proof (Z.mod_pos_bound 1000 N HN) as Hr.
  pose proof (Z.div_mod 1000 N ltac:(lia)) as Hq.
  rewrite (Z.abs_eq (1000 mod N)), (Z.abs_eq N) by lia.
  assert (H4 : N = 4 -> 1000 / N = 250 /\ 1000 mod N = 0)
    by (intros ->; split; reflexivity).
  destruct (Z.ltb_spec (2 * (1000 mod N)) N) as [Hlow|Hlow].
  { exists (1000 / N). split; [reflexivity|].
    split; [lia|]. split; [lia|]. split; [intros E; apply H4, E|lia]. }
  destruct (Z.ltb_spec N (2 * (1000 mod N))) as [Hhigh|Hhigh].
  { exists (1000 / N + 1). split; [reflexivity|].
    split; [lia|]. split; [lia|].
    split; [intros E; destruct (H4 E); lia|lia]. }
  destruct (Z.even (1000 / N)) eqn:He.
  { exists (1000 / N). split; [reflexivity|].
    split; [lia|]. split; [intros _; assumption|].
    split; [intros E; apply H4, E|lia]. }
  exists (1000 / N + 1). split; [reflexivity|].
  split; [lia|]. split; [|split].
  - intros _. rewrite Z.even_add, He. reflexivity.
  - intros E; destruct (H4 E); lia.
  - lia.
Qed.

End Replay.

(** ** The sequencer *)

Section Sequencer.
Context {tk : Toolkit} {A : Type} {an : Animated A}.

Import AnimationManager.

Lemma frames_trace_succ (k : nat) :
  frames_trace (S k) =
  frames_trace k ++ [Step (Some true); GetFrequency].
Proof.
  unfold frames_trace. induction k as [|k IH]; [reflexivity|].
  set (frame := [Step (Some true); GetFrequency]) in *.
  change (concat (repeat frame (S (S k))))
    with (frame ++ concat (repeat frame (S k))).
  rewrite IH at 1.
  change (concat (repeat frame (S k)))
    with (frame ++ concat (repeat frame k)).
  rewrite app_assoc. reflexivity.
Qed.

Lemma step_animation_sequenced (a : A) (w : World) (k : nat) :
  let r := _step_animation a w (Start :: frames_trace k) in
  sequenced (trace r) /\ (forall ms, pending r = After ms -> between_frames r).
Proof.
  unfold _step_animation.
  destruct (step a w) as [[[[|] a1] w1]|e].
  - assert (Hnext : (Start :: frames_trace k) ++
                      [Step (Some true); GetFrequency] =
                    Start :: frames_trace (S k))
      by (rewrite frames_trace_succ; reflexivity).
    destruct (get_frequency a1) as [ms|e]; cbn [trace pending];
      rewrite Hnext; split.
    + exists (S k), []. rewrite app_nil_r. auto.
    + intros _ _. exists (S k). reflexivity.
    + exists (S k), []. rewrite app_nil_r. auto.
    + discriminate.
  - destruct (finish a1 w1) as [[a2 w2]|e]; cbn [trace pending]; split;
      try discriminate; exists k, [Step (Some false); Finish]; auto.
  - cbn [trace pending]; split; [|discriminate].
    exists k, [Step None]; auto.
Qed.

Lemma mainloop_sequenced (fuel : nat) :
  forall r : run,
    sequenced (trace r) ->
    (forall ms, pending r = After ms -> between_frames r) ->
    sequenced (trace (mainloop fuel r)).
Proof.
  induction fuel as [|fuel IH]; intros r Hseq Harmed; [exact Hseq|].
  simpl. destruct (pending r) as [|ms|e] eqn:Hp; try exact Hseq.
  destruct (Harmed ms eq_refl) as [k Hk]. rewrite Hk.
  apply IH; apply step_animation_sequenced.
Qed.

Lemma drive_sequenced (fuel : nat) (a : A) (w : World) :
  sequenced (trace (drive fuel a w)).
Proof.
  unfold drive, play_animation.
  destruct (start a w) as [[a0 w0]|e].
  - apply mainloop_sequenced;
      apply (step_animation_sequenced a0 w0 0).
  - apply mainloop_sequenced.
    + exists 0%nat, []. auto.
    + discriminate.
Qed.

Lemma mainloop_not_armed (fuel : nat) (r : run) :
  (forall ms, pending r <> After ms) -> mainloop fuel r = r.
Proof.
  intros H. destruct fuel as [|fuel]; [reflexivity|]. simpl.
  destruct (pending r) as [|ms|e]; try reflexivity.
  exfalso. apply (H ms). reflexivity.
Qed.

Lemma mainloop_completes (k : nat) :
  forall (fuel : nat) (a0 ak a1 a2 : A) (w0 wk w1 w2 : World)
         (tr : list call),
    frames k a0 w0 = Some (ak, wk) ->
    step ak wk = Ok (false, a1, w1) ->
    finish a1 w1 = Ok (a2, w2) ->
    (k <= fuel)%nat ->
    mainloop fuel (_step_animation a0 w0 tr) =
    {| animation := a2; world := w2;
       trace := tr ++ frames_trace k ++ [Step (Some false); Finish];
       pending := Idle |}.
Proof.
  induction k as [|k IH]; intros fuel a0 ak a1 a2 w0 wk w1 w2 tr Hf Hs Hfin Hk.
  - injection Hf as <- <-.
    unfold _step_animation. rewrite Hs, Hfin.
    apply mainloop_not_armed. discriminate.
  - destruct fuel as [|fuel]; [lia|].
    simpl in Hf.
    destruct (step a0 w0) as [[[[|] a' ] w']|e] eqn:Hs0; try discriminate.
    destruct (get_frequency a') as [ms|e] eqn:Hg; try discriminate.
    unfold _step_animation at 1. rewrite Hs0, Hg. simpl.
    rewrite (IH fuel a' ak a1 a2 w' wk w1 w2 _ Hf Hs Hfin) by lia.
    rewrite <- app_assoc. reflexivity.
Qed.

Lemma in_frames_trace (k : nat) (c : call) :
  In c (frames_trace k) -> c = Step (Some true) \/ c = GetFrequency.
Proof.
  unfold frames_trace. induction k as [|k IH]; simpl; [tauto|].
  intros [<-|[<-|H]]; auto.
Qed.

Lemma split_unique (x : call) (l1 : list call) :
  forall l2 pre post : list call,
    ~ In x l1 -> ~ In x l2 ->
    l1 ++ x :: l2 = pre ++ x :: post ->
    pre = l1 /\ post = l2.
Proof.
  induction l1 as [|y l1 IH]; intros l2 pre post H1 H2 E.
  - destruct pre as [|z pre]; simpl in E.
    + injection E as <-. auto.
    + injection E as <- ->. exfalso. apply H2, in_elt.
  - destruct pre as [|z pre]; simpl in E.
    + injection E as -> _. exfalso. apply H1. left; reflexivity.
    + injection E as <- E.
      destruct (IH l2 pre post) as [-> ->]; auto.
      intros H; apply H1; right; exact H.
Qed.

Lemma sequenced_lifecycle (tr : list call) : sequenced tr -> lifecycle tr.
Proof.
  intros (k & tail & -> & Htail).
  assert (Hfr : forall c, In c (Start :: frames_trace k) ->
                          c <> Step (Some false) /\ c <> Finish)
    by (intros c [<-|H]; [|apply in_frames_trace in H as [-> | ->]];
        split; discriminate).
  assert (HnS : count_occ call_eq_dec (frames_trace k) Start = 0%nat)
    by (apply count_occ_not_In; intros H;
        apply in_frames_trace in H as [H|H]; discriminate).
  assert (HnF : count_occ call_eq_dec (frames_trace k) Finish = 0%nat)
    by (apply count_occ_not_In; intros H;
        apply in_frames_trace in H as [H|H]; discriminate).
  assert (Hno : forall x pre post,
             (x = Step (Some false) \/ x = Finish) ->
             Start :: frames_trace k = pre ++ x :: post -> False).
  { intros x pre post Hx E.
    destruct (Hfr x) as [H1 H2]; [rewrite E; apply in_elt|].
    destruct Hx; contradiction. }
  unfold lifecycle. split; [reflexivity|].
  rewrite !count_occ_cons_eq by reflexivity.
  rewrite (count_occ_cons_neq call_eq_dec) by discriminate.
  rewrite !count_occ_app, HnS, HnF.
  destruct Htail as [-> | [-> | ->]]; simpl.
  - rewrite app_nil_r.
    split; [reflexivity|]. split; [lia|]. split.
    + intros pre post E. exfalso.
      apply (Hno (Step (Some false)) pre post); auto.
    + intros pre post E. exfalso. apply (Hno Finish pre post); auto.
  - split; [reflexivity|]. split; [lia|].
    assert (Hsnoc : forall x pre post,
               (x = Step (Some false) \/ x = Finish) ->
               Start :: frames_trace k ++ [Step None] = pre ++ x :: post ->
               False).
    { intros x pre post Hx E.
      assert (Hin : In x ((Start :: frames_trace k) ++ [Step None]))
        by (change (In x (Start :: frames_trace k ++ [Step None]));
            rewrite E; apply in_elt).
      apply in_app_or in Hin as [Hin|[<-|[]]].
      - destruct (Hfr x Hin); destruct Hx; contradiction.
      - destruct Hx; discriminate. }
    split; intros pre post E; exfalso.
    + apply (Hsnoc (Step (Some false)) pre post); auto.
    + apply (Hsnoc Finish pre post); auto.
  - split; [reflexivity|]. split; [lia|]. split.
    + intros pre post E.
      apply (split_unique (Step (Some false)) (Start :: frames_trace k)
               [Finish] pre post) in E as [_ ->]; [reflexivity| |].
      * intros H. apply Hfr in H as [H _]. apply H. reflexivity.
      * intros [H|[]]; discriminate.
    + intros pre post E.
      replace (Start :: frames_trace k ++ [Step (Some false); Finish])
        with (((Start :: frames_trace k) ++ [Step (Some false)]) ++ [Finish])
        in E by (rewrite <- app_assoc; reflexivity).
      apply split_unique in E as [-> ->].
      * split; [reflexivity|]. eexists; reflexivity.
      * intros H. apply in_app_or in H as [H|[H|[]]]; [|discriminate].
        apply Hfr in H as [_ H]. apply H. reflexivity.
      * intros [].
Qed.

(** C2. Whatever the animation does and however long the event loop runs, the
    calls the manager makes are one [start], first, then whole frames, then
    possibly the [step] that ends the run, followed by [finish] when it
    returned [False]: [start] is called once and before any [step], [finish]
    at most once, only right after a [step] that returned [False], and
    nothing is called after that [step] but [finish].  And an animation whose
    [step] returns [False] at its [k+1]-th call is driven to that call as
    soon as the event loop fires [k] timers, and [finish] is then called,
    once. *)
Theorem play_animation_lifecycle :
  (forall (fuel : nat) (a : A) (w : World),
      sequenced (trace (drive fuel a w)) /\
      lifecycle (trace (drive fuel a w))) /\
  (forall (fuel k : nat) (a a0 ak a1 a2 : A) (w w0 wk w1 w2 : World),
      start a w = Ok (a0, w0) ->
      frames k a0 w0 = Some (ak, wk) ->
      step ak wk = Ok (false, a1, w1) ->
      finish a1 w1 = Ok (a2, w2) ->
      (k <= fuel)%nat ->
      drive fuel a w =
      {| animation := a2; world := w2;
         trace := Start :: frames_trace k ++ [Step (Some false); Finish];
         pending := Idle |} /\
      count_occ call_eq_dec (trace (drive fuel a w)) Start = 1%nat /\
      count_occ call_eq_dec (trace (drive fuel a w)) Finish = 1%nat).
Proof.
  split.
  - intros fuel a w. split.
    + apply drive_sequenced.
    + apply sequenced_lifecycle, drive_sequenced.
  - intros fuel k a a0 ak a1 a2 w w0 wk w1 w2 Hst Hf Hs Hfin Hk.
    assert (Hrun : drive fuel a w =
      {| animation := a2; world := w2;
         trace := Start :: frames_trace k ++ [Step (Some false); Finish];
         pending := Idle |}).
    { unfold drive, play_animation. rewrite Hst.
      apply (mainloop_completes k fuel a0 ak a1 a2 w0 wk w1 w2 [Start]);
        assumption. }
    split; [exact Hrun|].
    destruct (sequenced_lifecycle _ (drive_sequenced fuel a w))
      as (_ & Hstart & _).
    split; [exact Hstart|].
    rewrite Hrun; cbn [trace].
    rewrite (count_occ_cons_neq call_eq_dec) by discriminate.
    rewrite count_occ_app.
    replace (count_occ call_eq_dec (frames_trace k) Finish) with 0%nat.
    + reflexivity.
    + symmetry. apply count_occ_not_In. intros H.
      apply in_frames_trace in H as [H|H]; discriminate.
Qed.

End Sequencer.

(** ** An empty replay *)

Section EmptyReplay.
Context {tk : Toolkit} {gl : GameLogic}.

Import AnimationManager.

(** C7. A replay over no snapshot is built with its cursor already negative:
    its first [step] returns [False] and leaves the world alone, so the
    manager calls [start], that one [step] and [finish], with the registered
    hooks (or the default ones) run in this order, and stops without arming
    a timer.  [get_frequency], which would raise [ZeroDivisionError] on this
    object, is not among the calls, and the run ends without an exception. *)
Theorem empty_replay_is_terminal
  (draw : Game -> World -> World)
  (on_start_hook on_finish_hook : World -> World)
  (fuel : nat) (w : World) :
  let a := TimeMachineAnimation.__init__ [] draw in
  let hooked :=
    TimeMachineAnimation.on_finish
      (TimeMachineAnimation.on_start a on_start_hook) on_finish_hook in
  TimeMachineAnimation.get_frequency a = Raise ZeroDivisionError /\
  TimeMachineAnimation.step a w = Ok (false, a, w) /\
  drive fuel a w =
    {| animation := a; world := w;
       trace := [Start; Step (Some false); Finish]; pending := Idle |} /\
  drive fuel hooked w =
    {| animation := hooked; world := on_finish_hook (on_start_hook w);
       trace := [Start; Step (Some false); Finish]; pending := Idle |} /\
  ~ In GetFrequency (trace (drive fuel hooked w)).
Proof.
  intros a hooked.
  assert (Hidle : forall r : run (A := TimeMachineAnimation.t),
             pending r = Idle -> mainloop fuel r = r).
  { intros r Hr. destruct fuel as [|n]; [reflexivity|].
    simpl. rewrite Hr. reflexivity. }
  assert (Hrun : drive fuel hooked w =
    {| animation := hooked; world := on_finish_hook (on_start_hook w);
       trace := [Start; Step (Some false); Finish]; pending := Idle |})
    by (unfold drive; rewrite Hidle; reflexivity).
  split; [reflexivity|]. split; [reflexivity|].
  split; [unfold drive; rewrite Hidle; reflexivity|].
  split; [exact Hrun|].
  rewrite Hrun. simpl. intros [H|[H|[H|[]]]]; discriminate.
Qed.

End EmptyReplay.

(** ** Hooks *)

Section Hooks.
Context {tk : Toolkit}.

Lemma animation_default_hooks_do_nothing (w : World) :
  let a := Animation.__init__ Animation.fresh in
  Animation.start a w = Ok (a, w) /\ Animation.finish a w = Ok (a, w).
Proof. split; reflexivity. Qed.

Lemma replay_default_hooks_do_nothing {gl : GameLogic}
  (states : list GameState) (draw : Game -> World -> World) (w : World) :
  let a := TimeMachineAnimation.__init__ states draw in
  TimeMachineAnimation.start a w = Ok (a, w) /\
  TimeMachineAnimation.finish a w = Ok (a, w).
Proof. split; reflexivity. Qed.

Lemma last_registration_fires (a : Animation.t) (f g : World -> World)
  (w : World) :
  (exists a', Animation.start
                (Animation.on_start (Animation.on_start a f) g) w =
              Ok (a', g w)) /\
  (exists a', Animation.finish
                (Animation.on_finish (Animation.on_finish a f) g) w =
              Ok (a', g w)).
Proof. split; eexists; reflexivity. Qed.

Lemma crossbolt_registered_hooks_fire
  (a : CrossboltAnimation.t) (f g : World -> World) (w : World) :
  CrossboltAnimation._image a = None ->
  let hooked :=
    CrossboltAnimation.on_finish (CrossboltAnimation.on_start a f) g in
  CrossboltAnimation.start hooked w = Ok (hooked, f w) /\
  CrossboltAnimation.finish hooked w = Ok (hooked, g w).
Proof.
  intros Hi hooked. split.
  - reflexivity.
  - unfold CrossboltAnimation.finish, CrossboltAnimation._clear.
    subst hooked; cbn. rewrite Hi. reflexivity.
Qed.

(** C5, where the code departs from it. A flight on which no hook was
    registered has no callback attribute at all, since its constructor never
    runs [Animation.__init__]: [start] and [finish] raise [AttributeError],
    and the manager stops right after calling [start]. *)
Theorem crossbolt_without_hooks_raises
  (STEP_SIZE : Z) (canvas : AbstractGrid.t) (fuel : nat) (w : World) :
  exists a,
    CrossboltAnimation.__init__ canvas (0, 0) (0, 1) = Ok a /\
    CrossboltAnimation.start a w = Raise AttributeError /\
    CrossboltAnimation.finish a w = Raise AttributeError /\
    AnimationManager.drive (an := Crossbolt_Animated STEP_SIZE) fuel a w =
      {| AnimationManager.animation := a;
         AnimationManager.world := w;
         AnimationManager.trace := [Start];
         AnimationManager.pending := Failed AttributeError |}.
Proof.
  eexists. split; [reflexivity|]. split; [reflexivity|].
  split; [reflexivity|].
  unfold AnimationManager.drive. destruct fuel; reflexivity.
Qed.

End Hooks.

(** ** Concrete runs on the recording toolkit *)

Import Recording.

(** With the class's own step of 25 pixels and cells of 25 pixels, the flight
    from (0,0) to (0,3) has an offset of 75 pixels, three steps; yet its
    fourth [step] still returns [True]. *)
Lemma crossbolt_fourth_step_still_true :
  exists a,
    CrossboltAnimation.__init__ (grid 25) (0, 0) (0, 3) = Ok a /\
    travel_offset a = 75 /\
    ceil_div 75 CrossboltAnimation.STEP_SIZE_class = 3 /\
    forall a' w',
      step_n (an := Crossbolt_Animated CrossboltAnimation.STEP_SIZE_class)
        4 a [] <> Ok ([true; true; true; false], a', w').
Proof.
  eexists. split; [reflexivity|]. split; [reflexivity|].
  split; [reflexivity|].
  intros a' w'. vm_compute. discriminate.
Qed.

Lemma crossbolt_true_steps_witness :
  0 < 25 /\
  exists a a' w',
    CrossboltAnimation.__init__ (grid 50) (0, 0) (0, 3) = Ok a /\
    step_n (an := Crossbolt_Animated 25) 8 a [] =
    Ok ([true; true; true; true; true; true; true; false], a', w').
Proof.
  split; [reflexivity|].
  destruct (crossbolt_true_steps (tk := toolkit) 25 eq_refl) as [H _].
  eexists.
  destruct (H (grid 50) (0, 0) (0, 3) _ [] 8%nat eq_refl eq_refl eq_refl)
    as (_ & _ & a' & w' & Hrun).
  exists a', w'. split; [reflexivity|exact Hrun].
Defined.

Lemma crossbolt_direction_axis_aligned_witness :
  (1, 1) <> (3, 0) /\
  exists a,
    CrossboltAnimation.__init__ (grid 50) (1, 1) (3, 0) = Ok a /\
    CrossboltAnimation._direction a = (0, 1).
Proof.
  assert (Hne : (1, 1) <> (3, 0)) by discriminate.
  split; [exact Hne|].
  destruct (crossbolt_direction_axis_aligned (tk := toolkit)
              (grid 50) (1, 1) (3, 0) Hne) as (a & Ha & _ & _ & Hrow & _).
  exists a. split; [exact Ha|]. apply Hrow. discriminate.
Defined.

Lemma has_passed_target_is_signed_distance_witness :
  let a :=
    {| CrossboltAnimation.base := Animation.fresh;
       CrossboltAnimation._position := (125, 25);
       CrossboltAnimation._target := (100, 25);
       CrossboltAnimation._direction := (1, 0);
       CrossboltAnimation._angle := Some 0;
       CrossboltAnimation._image := None |} in
  In (CrossboltAnimation._direction a) unit_vectors /\
  CrossboltAnimation._has_passed_target a = true /\
  passed_by_signed_distance a = true.
Proof.
  intros a.
  assert (Hd : In (CrossboltAnimation._direction a) unit_vectors)
    by (simpl; auto).
  split; [exact Hd|].
  pose proof (has_passed_target_is_signed_distance (tk := toolkit) a Hd) as H.
  split; [reflexivity|]. rewrite <- H. reflexivity.
Defined.

Lemma crossbolt_first_step_draws_witness :
  exists a a',
    CrossboltAnimation.__init__ (grid 50) (2, 1) (2, 4) = Ok a /\
    CrossboltAnimation.step 25 a [] =
    Ok (true, a', [Created 0 (75, 125) (Some 0)]).
Proof.
  eexists. eexists. split; [reflexivity|].
  apply (crossbolt_first_step_draws (tk := toolkit) 25 (grid 50) (2, 1) (2, 4)
           _ [] eq_refl eq_refl eq_refl).
Defined.

Lemma replay_visits_snapshots_backwards_witness :
  step_n 2 (TimeMachineAnimation.__init__ [10; 20; 30] draw) [] =
  Ok ([true; true], replay_at [10; 20; 30] draw 1, [Drew 30; Drew 20]) /\
  step_n 4 (TimeMachineAnimation.__init__ [10; 20; 30] draw) [] =
  Ok ([true; true; true; false], replay_at [10; 20; 30] draw 0,
      [Drew 30; Drew 20; Drew 10]).
Proof.
  destruct (replay_visits_snapshots_backwards (tk := toolkit)
              (gl := game_logic) [10; 20; 30] draw []) as (Hk & _ & Hend).
  split.
  - apply (Hk 2%nat). simpl. lia.
  - exact (Hend 1%nat).
Defined.

(** Four snapshots are replayed 250 ms apart, not the 500 ms of a budget of
    two seconds; and the replay does not fit one budget whatever its length:
    666 snapshots are 2 ms apart and take 1332 ms, 1500 snapshots are 1 ms
    apart and take 1500 ms, 2000 snapshots are replayed with no delay at
    all. *)
Lemma replay_misses_stated_budget :
  TimeMachineAnimation.get_frequency
    (TimeMachineAnimation.__init__ [10; 20; 30; 40] draw) = Ok 250 /\
  TimeMachineAnimation.get_frequency
    (TimeMachineAnimation.__init__ [10; 20; 30; 40] draw) <> Ok (2000 / 4) /\
  TimeMachineAnimation.get_frequency
    (TimeMachineAnimation.__init__ (repeat 0 666) draw) = Ok 2 /\
  TimeMachineAnimation.get_frequency
    (TimeMachineAnimation.__init__ (repeat 0 1500) draw) = Ok 1 /\
  TimeMachineAnimation.get_frequency
    (TimeMachineAnimation.__init__ (repeat 0 2000) draw) = Ok 0 /\
  1000 < 666 * 2 /\ 1000 < 1500 * 1 /\ 2000 * 0 < 1000.
Proof.
  split; [reflexivity|]. split; [vm_compute; discriminate|].
  repeat split; vm_compute; reflexivity.
Qed.

Lemma replay_frequency_is_1000_over_n_witness :
  [10; 20; 30] <> [] /\
  exists ms,
    TimeMachineAnimation.get_frequency
      (TimeMachineAnimation.__init__ [10; 20; 30] draw) = Ok ms /\
    2 * Z.abs (ms * 3 - 1000) <= 3.
Proof.
  assert (Hne : [10; 20; 30] <> ([] : list Z)) by discriminate.
  split; [exact Hne|].
  destruct (replay_frequency_is_1000_over_n (tk := toolkit)
              (gl := game_logic) [10; 20; 30] draw Hne)
    as (ms & Hms & Hnear & _).
  exists ms. split; [exact Hms|exact Hnear].
Defined.

Lemma play_animation_lifecycle_witness :
  AnimationManager.trace
    (AnimationManager.drive 2
       (TimeMachineAnimation.on_finish
          (TimeMachineAnimation.on_start
             (TimeMachineAnimation.__init__ [10; 20] draw) (hook 1))
          (hook 2))
       []) =
  [Start; Step (Some true); GetFrequency; Step (Some true); GetFrequency;
   Step (Some false); Finish].
Proof.
  set (a := TimeMachineAnimation.on_finish
              (TimeMachineAnimation.on_start
                 (TimeMachineAnimation.__init__ (tk := toolkit)
                    (gl := game_logic) [10; 20] draw) (hook 1))
              (hook 2)).
  destruct (play_animation_lifecycle (tk := toolkit)
              (A := TimeMachineAnimation.t)) as [_ Hlive].
  rewrite (proj1 (Hlive 2%nat 2%nat a a
             (TimeMachineAnimation.set_current_step a (-1))
             (TimeMachineAnimation.set_current_step a (-1))
             (TimeMachineAnimation.set_current_step a (-1))
             [] [Hooked 1] [Hooked 1; Drew 20; Drew 10]
             [Hooked 1; Drew 20; Drew 10]
             [Hooked 1; Drew 20; Drew 10; Hooked 2]
             eq_refl eq_refl eq_refl eq_refl (le_n 2))).
  reflexivity.
Defined.

(** A whole flight of one cell, with both hooks registered: three frames
    (on the start cell, half-way, on the target), each deleting the sprite
    of the one before, and [finish] deleting the last. *)
Example crossbolt_run :
  exists a,
    CrossboltAnimation.__init__ (grid 50) (0, 0) (0, 1) = Ok a /\
    let hooked :=
      CrossboltAnimation.on_finish
        (CrossboltAnimation.on_start a (hook 1)) (hook 2) in
    let r :=
      AnimationManager.drive
        (an := Crossbolt_Animated CrossboltAnimation.STEP_SIZE_class)
        5 hooked [] in
    AnimationManager.trace r =
      Start :: frames_trace 3 ++ [Step (Some false); Finish] /\
    AnimationManager.pending r = Idle /\
    AnimationManager.world r =
      [Hooked 1;
       Created 1 (25, 25) (Some 0);
       Deleted 1; Created 3 (50, 25) (Some 0);
       Deleted 3; Created 5 (75, 25) (Some 0);
       Deleted 5; Hooked 2].
Proof. eexists. split; [reflexivity|]. repeat split. Qed.

(** The abstract animation cannot be played: its [step] raises. *)
Example abstract_animation_run :
  let r :=
    AnimationManager.drive 3 (Animation.__init__ Animation.fresh) [] in
  AnimationManager.trace r = [Start; Step None] /\
  AnimationManager.pending r = Failed NotImplementedError.
Proof. split; reflexivity. Qed.

(** * More of the code *)

(** ** Grid geometry *)

Section Geometry.

Import GridGeometry.

Variable self : AbstractGrid.t.

Lemma div_cell_offset (size k r : Z) :
  0 < size -> 0 <= r < size -> (k * size + r) / size = k.
Proof.
  intros Hs Hr. rewrite Z.add_comm, Z.div_add by lia.
  rewrite Z.div_small by lia. reflexivity.
Qed.

Lemma div_in_cell (size k x : Z) :
  0 < size -> (x / size = k <-> k * size <= x < k * size + size).
Proof.
  intros Hs. pose proof (Z.div_mod x size ltac:(lia)) as Hx.
  pose proof (Z.mod_pos_bound x size Hs) as Hr.
  split.
  - intros <-. lia.
  - intros Hk. replace x with (k * size + (x - k * size)) by lia.
    apply div_cell_offset; lia.
Qed.

(** X1. On a grid with positive cell sizes the centre of a cell is a pixel
    of that cell: converting it back gives the cell, for every row and
    column, negative ones included. *)
Theorem center_to_position_round_trip (position : Z * Z) :
  0 < AbstractGrid._cell_width self ->
  0 < AbstractGrid._cell_height self ->
  pixel_to_position self (AbstractGrid.get_position_center self position) =
  Ok position.
Proof.
  intros Hw Hh. destruct position as [row col].
  unfold pixel_to_position, AbstractGrid.get_position_center.
  destruct (Z.eqb_spec (AbstractGrid._cell_height self) 0); [lia|].
  destruct (Z.eqb_spec (AbstractGrid._cell_width self) 0); [lia|].
  rewrite !div_cell_offset; try reflexivity; try assumption;
    split; try (apply Z.div_pos; lia); apply Z.div_lt_upper_bound; lia.
Qed.

(** X2. On a grid with positive cell sizes a pixel is converted to a cell
    exactly when it lies in the bounding box of that cell, the left and top
    edges included and the right and bottom ones excluded. *)
Theorem pixel_to_position_iff_in_bbox (pixel : Pixel) (position : Z * Z) :
  0 < AbstractGrid._cell_width self ->
  0 < AbstractGrid._cell_height self ->
  let '(x_min, y_min, x_max, y_max) := get_bbox self position in
  pixel_to_position self pixel = Ok position <->
  (x_min <= fst pixel < x_max /\ y_min <= snd pixel < y_max).
Proof.
  intros Hw Hh. destruct position as [row col], pixel as [x y].
  unfold get_bbox, pixel_to_position; simpl fst; simpl snd.
  destruct (Z.eqb_spec (AbstractGrid._cell_height self) 0); [lia|].
  destruct (Z.eqb_spec (AbstractGrid._cell_width self) 0); [lia|].
  pose proof (div_in_cell _ row y Hh) as Hrow.
  pose proof (div_in_cell _ col x Hw) as Hcol.
  split.
  - intros [= Hr Hc]. split; [apply Hcol|apply Hrow]; assumption.
  - intros [Hx Hy]. f_equal. f_equal; [apply Hrow|apply Hcol]; assumption.
Qed.

End Geometry.

Section GridConstruction.

(** X3. Building a grid raises [ZeroDivisionError] exactly when it has no
    row or no column; otherwise the columns fit in the width when both are
    positive, with fewer than [cols] pixels left over.  A map of a size other
    than zero has square cells of exactly [CELL_SIZE] pixels, and the map of
    size zero cannot be built. *)
Theorem grid_construction (CELL_SIZE : Z) :
  (forall rows cols width height : Z,
      GridGeometry.__init__ rows cols width height = Raise ZeroDivisionError
      <-> (rows = 0 \/ cols = 0)) /\
  (forall rows cols width height : Z,
      rows <> 0 -> 0 < cols -> 0 <= width ->
      exists g,
        GridGeometry.__init__ rows cols width height = Ok g /\
        0 <= width - cols * AbstractGrid._cell_width g < cols) /\
  (forall size : Z,
      size <> 0 ->
      BasicMap.__init__ CELL_SIZE size =
      Ok {| AbstractGrid._cell_width := CELL_SIZE;
            AbstractGrid._cell_height := CELL_SIZE |}) /\
  BasicMap.__init__ CELL_SIZE 0 = Raise ZeroDivisionError.
Proof.
  split; [|split; [|split]].
  - intros rows cols width height. unfold GridGeometry.__init__.
    destruct (Z.eqb_spec cols 0); [tauto|].
    destruct (Z.eqb_spec rows 0); [tauto|].
    split; [discriminate|lia].
  - intros rows cols width height Hr Hc Hw.
    pose proof (Z.div_mod width cols ltac:(lia)).
    pose proof (Z.mod_pos_bound width cols ltac:(lia)).
    unfold GridGeometry.__init__.
    destruct (Z.eqb_spec cols 0); [lia|].
    destruct (Z.eqb_spec rows 0); [lia|].
    eexists; split; [reflexivity|]. simpl. lia.
  - intros size Hs. unfold BasicMap.__init__, GridGeometry.__init__.
    destruct (Z.eqb_spec size 0); [lia|].
    rewrite Z.div_mul by assumption. reflexivity.
  - reflexivity.
Qed.

End GridConstruction.

(** ** Clicks on the inventory *)

Section InventoryClicks.
Context {il : InventoryLogic}.

Import InventoryView.

Variable INVENTORY_WIDTH : Z.

Lemma py_getitem_in_range {X : Type} (l : list X) (i : Z) :
  0 <= i < Z.of_nat (length l) ->
  exists x, py_getitem l i = Ok x /\ nth_error l (Z.to_nat i) = Some x.
Proof.
  intros Hi. unfold py_getitem.
  destruct (Z.ltb_spec i 0); [lia|].
  destruct (Z.leb_spec 0 i); [|lia].
  destruct (Z.ltb_spec i (Z.of_nat (length l))); [|lia]. simpl.
  destruct (nth_error l (Z.to_nat i)) as [x|] eqn:Hx.
  - exists x. auto.
  - apply nth_error_None in Hx. lia.
Qed.

Lemma list_set_length {X : Type} (l : list X) :
  forall (i : nat) (x : X), length (list_set l i x) = length l.
Proof.
  induction l as [|y l IH]; intros [|i] x; simpl; auto.
Qed.

Lemma list_set_nth {X : Type} (l : list X) :
  forall (i : nat) (x : X),
    (i < length l)%nat -> nth_error (list_set l i x) i = Some x.
Proof.
  induction l as [|y l IH]; intros [|i] x Hi; simpl in *; try lia; auto.
  apply IH. lia.
Qed.

Lemma count_active_set (l : list Pickup) :
  forall (i : nat) (old new : Pickup),
    nth_error l i = Some old ->
    (count_active (list_set l i new) + (if is_active old then 1 else 0) =
     count_active l + (if is_active new then 1 else 0))%nat.
Proof.
  unfold count_active.
  induction l as [|y l IH]; intros [|i] old new Hn; simpl in *;
    try discriminate.
  - injection Hn as ->.
    destruct (is_active old), (is_active new); simpl; lia.
  - specialize (IH i old new Hn).
    destruct (is_active y); simpl; lia.
Qed.

Lemma none_active (l : list Pickup) :
  existsb is_active l = false -> count_active l = 0%nat.
Proof.
  unfold count_active. induction l as [|y l IH]; simpl; [reflexivity|].
  destruct (is_active y); simpl; [discriminate|exact IH].
Qed.

(** X4. A click is for the pickup in the row under it, the header row not
    counted: on the header, above it or below the last pickup it changes
    nothing and draws nothing.  On a view whose cells have no height or no
    width every click raises [ZeroDivisionError]. *)
Theorem use_item_outside_rows
  (self : AbstractGrid.t) (x y : Z) (inventory : list Pickup) :
  (AbstractGrid._cell_height self <> 0 ->
   AbstractGrid._cell_width self <> 0 ->
   let row := y / AbstractGrid._cell_height self - 1 in
   row < 0 \/ Z.of_nat (length inventory) <= row ->
   use_item INVENTORY_WIDTH self (x, y) inventory = Ok (inventory, [])) /\
  (0 < AbstractGrid._cell_height self ->
   AbstractGrid._cell_width self <> 0 ->
   y < AbstractGrid._cell_height self ->
   use_item INVENTORY_WIDTH self (x, y) inventory = Ok (inventory, [])) /\
  (AbstractGrid._cell_height self = 0 \/ AbstractGrid._cell_width self = 0 ->
   use_item INVENTORY_WIDTH self (x, y) inventory = Raise ZeroDivisionError).
Proof.
  assert (Hout : AbstractGrid._cell_height self <> 0 ->
                 AbstractGrid._cell_width self <> 0 ->
                 y / AbstractGrid._cell_height self - 1 < 0 \/
                 Z.of_nat (length inventory) <=
                 y / AbstractGrid._cell_height self - 1 ->
                 use_item INVENTORY_WIDTH self (x, y) inventory =
                 Ok (inventory, [])).
  { intros Hh Hw Hrow. unfold use_item, GridGeometry.pixel_to_position.
    destruct (Z.eqb_spec (AbstractGrid._cell_height self) 0); [lia|].
    destruct (Z.eqb_spec (AbstractGrid._cell_width self) 0); [lia|].
    simpl bind; simpl fst.
    destruct (Z.leb_spec 0 (y / AbstractGrid._cell_height self - 1));
      destruct (Z.ltb_spec (y / AbstractGrid._cell_height self - 1)
                  (Z.of_nat (length inventory)));
      simpl; try reflexivity; lia. }
  split; [exact Hout|]. split.
  - intros Hh Hw Hy. apply Hout; try lia. left.
    assert (y / AbstractGrid._cell_height self <= 0); [|lia].
    destruct (Z.lt_ge_cases y 0).
    + assert (y / AbstractGrid._cell_height self < 0)
        by (apply Z.div_lt_upper_bound; lia). lia.
    + rewrite Z.div_small; lia.
  - intros Hz. unfold use_item, GridGeometry.pixel_to_position.
    destruct (Z.eqb_spec (AbstractGrid._cell_height self) 0); [reflexivity|].
    destruct (Z.eqb_spec (AbstractGrid._cell_width self) 0); [reflexivity|].
    lia.
Qed.

Hypothesis toggle_flips :
  forall p : Pickup, is_active (toggle_active p) = negb (is_active p).
Hypothesis any_active_exists :
  forall items : list Pickup, any_active items = existsb is_active items.

(** X5. Provided the inventory's [toggle_active] flips the pickup's flag and
    its [any_active] tells whether some pickup is active: a click never
    changes the number of pickups, and when at most one pickup is active
    before the click at most one is active after it; the view is cleared and
    drawn again exactly when the click changed the inventory. *)
Theorem use_item_keeps_one_active
  (self : AbstractGrid.t) (pixel : Pixel)
  (inventory inventory1 : list Pickup) (calls : list canvas_call) :
  use_item INVENTORY_WIDTH self pixel inventory = Ok (inventory1, calls) ->
  length inventory1 = length inventory /\
  ((count_active inventory <= 1)%nat -> (count_active inventory1 <= 1)%nat) /\
  (calls = [] <-> inventory1 = inventory) /\
  (calls <> [] -> calls = DeleteAll :: draw INVENTORY_WIDTH self inventory1).
Proof.
  unfold use_item.
  destruct (GridGeometry.pixel_to_position self pixel) as [position|e];
    [|discriminate].
  simpl bind.
  set (row := fst position - 1).
  assert (Hsame : Ok (inventory, @nil canvas_call) = Ok (inventory1, calls) ->
                  length inventory1 = length inventory /\
                  ((count_active inventory <= 1)%nat ->
                   (count_active inventory1 <= 1)%nat) /\
                  (calls = [] <-> inventory1 = inventory) /\
                  (calls <> [] ->
                   calls = DeleteAll :: draw INVENTORY_WIDTH self inventory1)).
  { intros [= <- <-]. repeat split; auto. intros H; contradiction H;
      reflexivity. }
  destruct (Z.leb_spec 0 row); [|exact Hsame].
  destruct (Z.ltb_spec row (Z.of_nat (length inventory))); [|exact Hsame].
  simpl andb. cbv iota.
  destruct (py_getitem_in_range inventory row) as (item & -> & Hitem);
    [lia|].
  simpl bind.
  destruct (is_active item || negb (any_active inventory)) eqn:Hguard;
    [|exact Hsame].
  intros [= <- <-].
  pose proof (count_active_set inventory (Z.to_nat row) item
                (toggle_active item) Hitem) as Hcount.
  rewrite toggle_flips in Hcount.
  split; [apply list_set_length|]. split; [|split].
  - intros Hone. rewrite any_active_exists in Hguard.
    destruct (is_active item) eqn:Hact; simpl negb in Hcount;
      cbv iota in Hcount; [lia|].
    assert (Hnone : count_active inventory = 0%nat).
    { apply none_active.
      destruct (existsb is_active inventory); [discriminate|reflexivity]. }
    lia.
  - split; [discriminate|]. intros Heq. exfalso.
    assert (Hnew : nth_error (list_set inventory (Z.to_nat row)
                                (toggle_active item)) (Z.to_nat row) =
                   Some (toggle_active item))
      by (apply list_set_nth; lia).
    rewrite Heq, Hitem in Hnew. injection Hnew as Hnew.
    pose proof (toggle_flips item) as Hf. rewrite <- Hnew in Hf.
    destruct (is_active item); discriminate.
  - reflexivity.
Qed.

End InventoryClicks.

(** ** The sprite of a flight *)

Section FlightAngle.
Context {tk : Toolkit}.

Import CrossboltAnimation.

(** X6. [ANGLE_MAP] has an angle for the four unit vectors and for nothing
    else, so a flight that could be built always has one: 270 when the
    target is in a row further down, 90 when it is in a row further up, and
    in the start row 0 when it is to the right and 180 when it is to the
    left. *)
Theorem crossbolt_angle_defined :
  (forall d : Z * Z, _angle_from_direction d <> None <-> In d unit_vectors) /\
  (forall (canvas : AbstractGrid.t) (start target : Z * Z) (a : t),
      __init__ canvas start target = Ok a ->
      _angle a =
      Some (if fst start <? fst target then 270
            else if fst target <? fst start then 90
            else if snd start <? snd target then 0
            else 180)).
Proof.
  split.
  - intros [dx dy]. unfold _angle_from_direction, ANGLE_MAP.
    cbn [dict_get fst snd]. split.
    + repeat match goal with
        | |- context [?x =? ?y] => destruct (Z.eqb_spec x y)
        end; cbn [andb]; intros H;
        try (exfalso; apply H; reflexivity); subst; simpl; auto 6;
        exfalso; lia.
    + intros [H|[H|[H|[H|[]]]]]; injection H as <- <-; vm_compute;
        discriminate.
  - intros canvas [sx sy] [tx ty] a Ha. simpl fst; simpl snd.
    unfold __init__, _direction_from_positions in Ha.
    rewrite !Z.gtb_ltb in Ha.
    destruct (sx <? tx); [injection Ha as <-; reflexivity|].
    destruct (tx <? sx); [injection Ha as <-; reflexivity|].
    destruct (sy <? ty); [injection Ha as <-; reflexivity|].
    destruct (ty <? sy); [injection Ha as <-; reflexivity|discriminate].
Qed.

End FlightAngle.

Section FlightLine.
Context {tk : Toolkit}.
Variable STEP_SIZE : Z.

Import CrossboltAnimation.

(** One step before the target, and the object it leaves. *)
Lemma step_draws_and_moves (a : t) (w : World) :
  In (_direction a) unit_vectors ->
  0 <= travel_offset a ->
  exists image w1,
    step STEP_SIZE a w =
      Ok (true, _move_one_step STEP_SIZE (set_image a (Some image)), w1) /\
    (let '(sprite, w2) := get_image (_angle a) (_clear a w) in
     create_image (_position a) sprite w2 = (image, w1)).
Proof.
  intros Hd Hoff. unfold step.
  rewrite has_passed_target_offset by assumption.
  destruct (Z.ltb_spec (travel_offset a) 0); [lia|].
  unfold _draw.
  destruct (get_image (_angle a) (_clear a w)) as [sprite w2].
  destruct (create_image (_position a) sprite w2) as [image w3].
  exists image, w3. split; reflexivity.
Qed.

Lemma moved_fields (a : t) (image : option Item) :
  In (_direction a) unit_vectors ->
  let a1 := _move_one_step STEP_SIZE (set_image a image) in
  _direction a1 = _direction a /\ _target a1 = _target a /\
  _angle a1 = _angle a /\ base a1 = base a /\ _image a1 = image /\
  _position a1 = position_after STEP_SIZE a 1 /\
  travel_offset a1 = travel_offset a - STEP_SIZE.
Proof.
  intros Hd a1. subst a1.
  destruct a as [b [cx cy] [tx ty] [dx dy] angle img].
  unfold _move_one_step, position_after, travel_offset, set_image,
    set_position.
  cbn [_position _direction _target _angle _image base] in *.
  change (Z.of_nat 1) with 1.
  repeat split; try (f_equal; lia).
  simpl in Hd.
  destruct Hd as [E|[E|[E|[E|[]]]]]; injection E as <- <-; lia.
Qed.

Lemma steps_on_line (k : nat) :
  forall (a : t) (w : World),
    In (_direction a) unit_vectors ->
    ((0 < k)%nat -> (Z.of_nat k - 1) * STEP_SIZE <= travel_offset a) ->
    0 < STEP_SIZE ->
    exists ak wk,
      step_n (an := Crossbolt_Animated STEP_SIZE) k a w =
        Ok (repeat true k, ak, wk) /\
      _direction ak = _direction a /\ _target ak = _target a /\
      _angle ak = _angle a /\ base ak = base a /\
      _position ak = position_after STEP_SIZE a k /\
      travel_offset ak = travel_offset a - Z.of_nat k * STEP_SIZE.
Proof.
  induction k as [|k IH]; intros a w Hd Hk HS.
  - exists a, w. repeat split; try reflexivity; try lia.
    unfold position_after.
    destruct (_position a) as [cx cy], (_direction a) as [dx dy].
    f_equal; lia.
  - assert (Hpos : 0 <= travel_offset a) by nia.
    destruct (step_draws_and_moves a w Hd Hpos) as (image & w1 & Hs & _).
    destruct (moved_fields a (Some image) Hd)
      as (Hd1 & Ht1 & Ha1 & Hb1 & _ & Hp1 & Ho1).
    set (a1 := _move_one_step STEP_SIZE (set_image a (Some image))) in *.
    destruct (IH a1 w1)
      as (ak & wk & Hrun & Hdk & Htk & Hak & Hbk & Hpk & Hok);
      [rewrite Hd1; assumption | rewrite Ho1; nia | assumption |].
    exists ak, wk.
    change (step_n (S k) a w) with
      ('(b, a2, w2) <- step STEP_SIZE a w ;;
       '(bs, a3, w3) <- step_n (an := Crossbolt_Animated STEP_SIZE)
                          k a2 w2 ;;
       Ok (b :: bs, a3, w3)).
    rewrite Hs. simpl bind. fold a1. rewrite Hrun. simpl bind.
    repeat split; try congruence; try lia.
    rewrite Hpk. unfold position_after in *. rewrite Hp1, Hd1.
    destruct (_position a) as [cx cy], (_direction a) as [dx dy].
    f_equal; lia.
Qed.

(** X7. On a grid with positive cell sizes and with a positive step, the
    frames of a flight lie on the line from the start: after [k] steps, for
    every [k] up to [D / STEP_SIZE], the sprite is [k] moves from the centre
    of the start cell, not beyond the target, and this is where the next
    step draws it.  When the two cells share a row or a column and the step
    divides the offset, the last frame is drawn on the centre of the target
    cell. *)
Theorem crossbolt_frames_on_the_line
  (canvas : AbstractGrid.t) (start target : Z * Z) (a : t) (w : World)
  (k : nat) :
  0 < STEP_SIZE ->
  0 < AbstractGrid._cell_width canvas ->
  0 < AbstractGrid._cell_height canvas ->
  __init__ canvas start target = Ok a ->
  Z.of_nat k <= travel_offset a / STEP_SIZE ->
  exists ak wk image w1,
    step_n (an := Crossbolt_Animated STEP_SIZE) k a w =
      Ok (repeat true k, ak, wk) /\
    _position ak = position_after STEP_SIZE a k /\
    0 <= travel_offset ak /\
    travel_offset ak = travel_offset a - Z.of_nat k * STEP_SIZE /\
    step STEP_SIZE ak wk =
      Ok (true, _move_one_step STEP_SIZE (set_image ak (Some image)), w1) /\
    (let '(sprite, w2) := get_image (_angle a) (_clear ak wk) in
     create_image (position_after STEP_SIZE a k) sprite w2 = (image, w1)) /\
    ((fst start = fst target \/ snd start = snd target) ->
     Z.of_nat k * STEP_SIZE = travel_offset a ->
     _position ak = _target a).
Proof.
  intros HS Hw Hh Ha Hk.
  destruct (init_offset canvas start target a Hw Hh Ha) as (Hd & Hpos & _).
  pose proof (Z.mul_div_le (travel_offset a) STEP_SIZE HS) as Hle.
  destruct (steps_on_line k a w Hd)
    as (ak & wk & Hrun & Hdk & Htk & Hak & _ & Hpk & Hok); try nia.
  assert (Hposk : 0 <= travel_offset ak) by nia.
  rewrite <- Hdk in Hd.
  destruct (step_draws_and_moves ak wk Hd Hposk) as (image & w1 & Hs & Hdraw).
  exists ak, wk, image, w1.
  rewrite Hak, Hpk in Hdraw.
  repeat split; try assumption.
  intros Haxis Hlast. rewrite Hpk.
  apply init_fields in Ha as (Hdir & Hp & Ht & _).
  unfold position_after, travel_offset in *. rewrite Hp, Ht in *.
  destruct start as [sx sy], target as [tx ty]; simpl in *.
  unfold _direction_from_positions in Hdir. rewrite !Z.gtb_ltb in Hdir.
  destruct (Z.ltb_spec sx tx);
    [|destruct (Z.ltb_spec tx sx);
      [|destruct (Z.ltb_spec sy ty);
        [|destruct (Z.ltb_spec ty sy); [|discriminate]]]];
    injection Hdir as Hdir; rewrite <- Hdir in *;
    f_equal; destruct Haxis; subst; nia.
Qed.

End FlightLine.

(** ** The canvas calls of a flight *)

Section RecordedFlight.
Variable STEP_SIZE : Z.

Import CrossboltAnimation.

Lemma true_steps_past (D : Z) : D < 0 -> true_steps STEP_SIZE D = 0%nat.
Proof.
  intros HD. unfold true_steps. destruct (Z.ltb_spec D 0); [reflexivity|lia].
Qed.

Lemma true_steps_succ (D : Z) :
  0 < STEP_SIZE -> 0 <= D ->
  true_steps STEP_SIZE D = S (true_steps STEP_SIZE (D - STEP_SIZE)).
Proof.
  intros HS HD. unfold true_steps.
  destruct (Z.ltb_spec D 0); [lia|].
  destruct (Z.ltb_spec (D - STEP_SIZE) 0).
  - rewrite Z.div_small by lia. reflexivity.
  - replace (D / STEP_SIZE + 1) with ((D - STEP_SIZE) / STEP_SIZE + 1 + 1).
    2:{ replace D with ((D - STEP_SIZE) + 1 * STEP_SIZE) at 2 by lia.
        rewrite Z.div_add by lia. lia. }
    assert (0 <= (D - STEP_SIZE) / STEP_SIZE) by (apply Z.div_pos; lia).
    rewrite Z2Nat.inj_add by lia.
    replace (Z.to_nat 1) with 1%nat by reflexivity.
    apply Nat.add_1_r.
Qed.

Lemma true_steps_bounds (D : Z) :
  0 < STEP_SIZE -> 0 <= D ->
  let m := Z.of_nat (true_steps STEP_SIZE D) in
  (m - 1) * STEP_SIZE <= D < m * STEP_SIZE /\ 0 < m.
Proof.
  intros HS HD. unfold true_steps.
  destruct (Z.ltb_spec D 0); [lia|].
  assert (0 <= D / STEP_SIZE) by (apply Z.div_pos; lia).
  rewrite Z2Nat.id by lia.
  pose proof (Z.div_mod D STEP_SIZE ltac:(lia)).
  pose proof (Z.mod_pos_bound D STEP_SIZE HS).
  nia.
Qed.

Lemma flight_returns_true_steps (D : Z) (n : nat) :
  flight_returns STEP_SIZE D n =
  repeat true (Nat.min n (true_steps STEP_SIZE D)) ++
  repeat false (n - true_steps STEP_SIZE D).
Proof.
  unfold flight_returns, true_steps.
  destruct (D <? 0); [|reflexivity].
  rewrite Nat.min_0_r, Nat.sub_0_r. reflexivity.
Qed.

Lemma recorded_steps (n : nat) :
  0 < STEP_SIZE ->
  forall (a : t (tk := Recording.toolkit)) (w : list Recording.op),
    In (_direction a) unit_vectors ->
    exists a' w',
      step_n (an := Crossbolt_Animated STEP_SIZE) n a w =
        Ok (flight_returns STEP_SIZE (travel_offset a) n, a', w') /\
      base a' = base a /\
      _clear a' w' =
      _clear a w ++
      sprite_calls (length (_clear a w)) (_position a)
        (step_vector STEP_SIZE a) (_angle a)
        (Nat.min n (true_steps STEP_SIZE (travel_offset a))).
Proof.
  intros HS. induction n as [|n IH]; intros a w Hd.
  - exists a, w. split; [|split; [reflexivity|]].
    + unfold flight_returns; simpl.
      destruct (travel_offset a <? 0); reflexivity.
    + simpl. rewrite app_nil_r. reflexivity.
  - destruct (Z.lt_ge_cases (travel_offset a) 0) as [Hneg|Hpos].
    + destruct (IH a w Hd) as (a' & w' & Hrun & Hb & Hclear).
      exists a', w'. split; [|split; [assumption|]].
      * simpl. rewrite (step_past_target STEP_SIZE) by assumption. simpl.
        rewrite Hrun; simpl.
        rewrite !flight_returns_past by assumption. reflexivity.
      * rewrite Hclear, true_steps_past by assumption.
        rewrite !Nat.min_0_r. reflexivity.
    + destruct (step_draws_and_moves STEP_SIZE a w Hd Hpos)
        as (image & w1 & Hs & Hdraw).
      simpl in Hdraw. injection Hdraw as <- <-.
      destruct (moved_fields STEP_SIZE a
                  (Some (length (_clear a w))) Hd)
        as (Hd1 & Ht1 & Ha1 & Hb1 & Hi1 & Hp1 & Ho1).
      set (a1 := _move_one_step STEP_SIZE
                   (set_image a (Some (length (_clear a w))))) in *.
      set (wc := _clear a w) in *.
      rewrite <- Hd1 in Hd.
      destruct (IH a1 (wc ++ [Recording.Created (length wc) (_position a)
                                (_angle a)]) Hd)
        as (a' & w' & Hrun & Hb & Hclear).
      exists a', w'. split; [|split; [congruence|]].
      * change (step_n (an := Crossbolt_Animated STEP_SIZE) (S n) a w) with
          ('(b, a2, w2) <- step STEP_SIZE a w ;;
           '(bs, a3, w3) <- step_n (an := Crossbolt_Animated STEP_SIZE)
                              n a2 w2 ;;
           Ok (b :: bs, a3, w3)).
        rewrite Hs. simpl bind. fold a1. rewrite Hrun. simpl bind.
        rewrite flight_returns_succ, Ho1 by assumption. reflexivity.
      * rewrite Hclear, (true_steps_succ (travel_offset a)) by assumption.
        rewrite Ho1, Ha1, Hp1. unfold step_vector. rewrite Hd1.
        unfold _clear at 1 2. rewrite Hi1. simpl delete.
        rewrite <- Nat.succ_min_distr. simpl sprite_calls.
        rewrite <- !app_assoc, !length_app. simpl length.
        replace (length wc + 1 + 1)%nat with (length wc + 2)%nat by lia.
        unfold position_after.
        destruct (_position a) as [cx cy], (_direction a) as [dx dy].
        simpl fst; simpl snd.
        replace (cx + Z.of_nat 1 * STEP_SIZE * dx) with (cx + STEP_SIZE * dx)
          by lia.
        replace (cy + Z.of_nat 1 * STEP_SIZE * dy) with (cy + STEP_SIZE * dy)
          by lia.
        reflexivity.
Qed.

(** X8. On the recording canvas, with positive cell sizes and a positive
    step: a flight makes no other canvas call than creating a sprite and
    deleting it again, as many times as [step] returns [True].  Each sprite
    is deleted before the next one is created, one move further, and the
    last one is deleted by [finish], before the finish hook runs: no sprite
    of the flight is left on the canvas. *)
Theorem recorded_flight_leaves_no_sprite
  (canvas : AbstractGrid.t) (start target : Z * Z)
  (a : t (tk := Recording.toolkit))
  (on_finish_hook : list Recording.op -> list Recording.op)
  (w : list Recording.op) (n : nat) :
  0 < STEP_SIZE ->
  0 < AbstractGrid._cell_width canvas ->
  0 < AbstractGrid._cell_height canvas ->
  __init__ canvas start target = Ok a ->
  (true_steps STEP_SIZE (travel_offset a) <= n)%nat ->
  exists a1 w1 a2,
    step_n (an := Crossbolt_Animated STEP_SIZE) n
      (on_finish a on_finish_hook) w =
      Ok (repeat true (true_steps STEP_SIZE (travel_offset a)) ++
          repeat false (n - true_steps STEP_SIZE (travel_offset a)),
          a1, w1) /\
    finish a1 w1 =
      Ok (a2,
          on_finish_hook
            (w ++
             sprite_calls (length w)
               (AbstractGrid.get_position_center canvas start)
               (step_vector STEP_SIZE a)
               (_angle a)
               (true_steps STEP_SIZE (travel_offset a)))).
Proof.
  intros HS Hw Hh Ha Hn.
  destruct (init_offset canvas start target a Hw Hh Ha) as (Hd & _ & _).
  apply init_fields in Ha as (_ & Hp & _ & Hi & _).
  destruct (recorded_steps n HS (on_finish a on_finish_hook) w Hd)
    as (a1 & w1 & Hrun & Hb & Hclear).
  exists a1, w1. eexists. split.
  - rewrite Hrun.
    change (travel_offset (on_finish a on_finish_hook))
      with (travel_offset a).
    rewrite flight_returns_true_steps, Nat.min_r by assumption. reflexivity.
  - unfold finish. rewrite Hclear, Hb.
    change (travel_offset (on_finish a on_finish_hook))
      with (travel_offset a).
    rewrite Nat.min_r by assumption.
    unfold _clear at 1 2. cbn [on_finish set_base _image]. rewrite Hi.
    cbn [on_finish set_base base _position _angle].
    unfold Animation.finish, Animation.on_finish;
      cbn [Animation._finish_callback bind].
    rewrite Hp. reflexivity.
Qed.

End RecordedFlight.

(** ** Runs of the manager *)

Section Runs.
Context {tk : Toolkit} {A : Type} {an : Animated A}.

Import AnimationManager.

Lemma frames_of_step_n (k : nat) :
  (forall a : A, exists ms, get_frequency a = Ok ms) ->
  forall (a ak : A) (w wk : World),
    step_n k a w = Ok (repeat true k, ak, wk) ->
    frames k a w = Some (ak, wk).
Proof.
  intros Hfreq. induction k as [|k IH]; intros a ak w wk Hrun.
  - injection Hrun as <- <-. reflexivity.
  - simpl in *.
    destruct (step a w) as [[[b a1] w1]|e]; simpl in Hrun; [|discriminate].
    destruct (step_n k a1 w1) as [[[bs a2] w2]|e] eqn:Hrest; simpl in Hrun;
      [|discriminate].
    injection Hrun as -> -> -> ->.
    destruct (Hfreq a1) as [ms ->]. apply IH. assumption.
Qed.

Lemma mainloop_add (n m : nat) :
  forall r : run, mainloop (n + m) r = mainloop m (mainloop n r).
Proof.
  induction n as [|n IH]; intros r; [reflexivity|].
  simpl. destruct (pending r) as [|ms|e] eqn:Hp.
  - symmetry. apply mainloop_not_armed. rewrite Hp. discriminate.
  - apply IH.
  - symmetry. apply mainloop_not_armed. rewrite Hp. discriminate.
Qed.

Lemma count_steps_app (l1 l2 : list call) :
  count_steps (l1 ++ l2) = (count_steps l1 + count_steps l2)%nat.
Proof. unfold count_steps. rewrite filter_app, length_app. reflexivity. Qed.

Lemma step_animation_one_step (a : A) (w : World) (tr : list call) :
  count_steps (trace (_step_animation a w tr)) = S (count_steps tr).
Proof.
  unfold _step_animation, count_steps.
  destruct (step a w) as [[[[|] a1] w1]|e].
  - destruct (get_frequency a1); cbn [trace];
      rewrite filter_app, length_app; simpl; lia.
  - destruct (finish a1 w1) as [[a2 w2]|e]; cbn [trace];
      rewrite filter_app, length_app; simpl; lia.
  - cbn [trace]. rewrite filter_app, length_app. simpl. lia.
Qed.

Lemma mainloop_steps (fuel : nat) :
  forall r : run,
    (count_steps (trace (mainloop fuel r)) <= count_steps (trace r) + fuel)%nat.
Proof.
  induction fuel as [|fuel IH]; intros r; simpl; [lia|].
  destruct (pending r); try lia.
  specialize (IH (_step_animation (animation r) (world r) (trace r))).
  rewrite step_animation_one_step in IH. lia.
Qed.

(** X12. The manager never loops: [play_animation] returns after at most
    one call of [step], and every timer that fires adds one call at most, so
    after [fuel] timers [step] was called at most [fuel + 1] times.  Once a
    run has stopped, with [finish] called or with an exception, the event
    loop has nothing left of it to fire: running it longer changes
    nothing. *)
Theorem manager_never_loops (fuel more : nat) (a : A) (w : World) :
  (count_steps (trace (play_animation a w)) <= 1)%nat /\
  (count_steps (trace (drive fuel a w)) <= fuel + 1)%nat /\
  ((forall ms, pending (drive fuel a w) <> After ms) ->
   drive (fuel + more) a w = drive fuel a w).
Proof.
  assert (Hplay : (count_steps (trace (play_animation a w)) <= 1)%nat).
  { unfold play_animation. destruct (start a w) as [[a0 w0]|e].
    - rewrite step_animation_one_step. unfold count_steps. simpl. lia.
    - unfold count_steps. simpl. lia. }
  split; [exact Hplay|]. split.
  - unfold drive.
    pose proof (mainloop_steps fuel (play_animation a w)). lia.
  - intros Hstop. unfold drive in *. rewrite mainloop_add.
    apply mainloop_not_armed. exact Hstop.
Qed.

End Runs.

(** ** Shooting at a zombie *)

Section Shooting.
Context {tk : Toolkit}.
Variable STEP_SIZE : Z.
Variable _grid : AbstractGrid.t.
Variable _freeze_zombie : Z * Z -> World -> World.
Variable _remove_zombie : Z * Z -> World -> World.

Import AnimationManager.

Lemma crossbolt_frequency (a : CrossboltAnimation.t) :
  exists ms, get_frequency (Animated := Crossbolt_Animated STEP_SIZE) a = Ok ms.
Proof. exists 100. reflexivity. Qed.

Lemma init_succeeds (canvas : AbstractGrid.t) (start target : Z * Z) :
  start <> target ->
  exists a, CrossboltAnimation.__init__ canvas start target = Ok a.
Proof.
  intros Hne. unfold CrossboltAnimation.__init__.
  destruct (CrossboltAnimation._direction_from_positions start target)
    as [d|e] eqn:Hd; [eexists; reflexivity|].
  exfalso. destruct start as [sx sy], target as [tx ty].
  unfold CrossboltAnimation._direction_from_positions in Hd.
  rewrite !Z.gtb_ltb in Hd.
  destruct (Z.ltb_spec sx tx); [discriminate|].
  destruct (Z.ltb_spec tx sx); [discriminate|].
  destruct (Z.ltb_spec sy ty); [discriminate|].
  destruct (Z.ltb_spec ty sy); [discriminate|].
  apply Hne; f_equal; lia.
Qed.

(** A flight with both hooks registered, from [play_animation] to the
    end. *)
Lemma hooked_flight_run
  (a : CrossboltAnimation.t) (f g : World -> World) (w : World)
  (fuel : nat) :
  0 < STEP_SIZE ->
  In (CrossboltAnimation._direction a) unit_vectors ->
  0 <= travel_offset a ->
  CrossboltAnimation._image a = None ->
  let hooked :=
    CrossboltAnimation.on_finish (CrossboltAnimation.on_start a f) g in
  let r := play_animation (an := Crossbolt_Animated STEP_SIZE) hooked w in
  let m := true_steps STEP_SIZE (travel_offset a) in
  (exists sprite w2 image w1,
      get_image (CrossboltAnimation._angle a) (f w) = (sprite, w2) /\
      create_image (CrossboltAnimation._position a) sprite w2 = (image, w1) /\
      r = {| animation :=
               CrossboltAnimation._move_one_step STEP_SIZE
                 (CrossboltAnimation.set_image hooked (Some image));
             world := w1;
             trace := [Start; Step (Some true); GetFrequency];
             pending := After 100 |}) /\
  ((m <= fuel)%nat ->
   exists ak wk,
     step_n (an := Crossbolt_Animated STEP_SIZE) m hooked (f w) =
       Ok (repeat true m, ak, wk) /\
     mainloop (an := Crossbolt_Animated STEP_SIZE) fuel r =
     {| animation := CrossboltAnimation.set_base ak (CrossboltAnimation.base ak);
        world := g (CrossboltAnimation._clear ak wk);
        trace := Start :: frames_trace m ++ [Step (Some false); Finish];
        pending := Idle |}).
Proof.
  intros HS Hd Hpos Hi hooked r m.
  assert (Hstart : CrossboltAnimation.start hooked w = Ok (hooked, f w))
    by (apply crossbolt_registered_hooks_fire; assumption).
  assert (Hr : r = _step_animation (an := Crossbolt_Animated STEP_SIZE)
                     hooked (f w) [Start]).
  { subst r. unfold play_animation.
    change (start hooked w) with (CrossboltAnimation.start hooked w).
    rewrite Hstart. reflexivity. }
  assert (Hdh : In (CrossboltAnimation._direction hooked) unit_vectors)
    by exact Hd.
  assert (Hoh : travel_offset hooked = travel_offset a) by reflexivity.
  split.
  - destruct (step_draws_and_moves STEP_SIZE hooked (f w) Hdh)
      as (image & w1 & Hs & Hdraw); [lia|].
    unfold CrossboltAnimation._clear in Hdraw.
    change (CrossboltAnimation._image hooked)
      with (CrossboltAnimation._image a) in Hdraw.
    rewrite Hi in Hdraw.
    change (CrossboltAnimation._angle hooked)
      with (CrossboltAnimation._angle a) in Hdraw.
    change (CrossboltAnimation._position hooked)
      with (CrossboltAnimation._position a) in Hdraw.
    destruct (get_image (CrossboltAnimation._angle a) (f w))
      as [sprite w2] eqn:Hget.
    exists sprite, w2, image, w1.
    split; [reflexivity|]. split; [exact Hdraw|].
    rewrite Hr. unfold _step_animation.
    change (step hooked (f w))
      with (CrossboltAnimation.step STEP_SIZE hooked (f w)).
    rewrite Hs. reflexivity.
  - intros Hfuel.
    destruct (true_steps_bounds STEP_SIZE (travel_offset a) HS Hpos)
      as [Hb Hm].
    fold m in Hb, Hm.
    destruct (steps_on_line STEP_SIZE m hooked (f w) Hdh)
      as (ak & wk & Hrun & Hdk & _ & _ & Hbk & _ & Hok);
      [rewrite Hoh; lia | assumption |].
    exists ak, wk. split; [exact Hrun|].
    apply (frames_of_step_n (an := Crossbolt_Animated STEP_SIZE) m
             crossbolt_frequency) in Hrun.
    assert (Hlast : step (Animated := Crossbolt_Animated STEP_SIZE) ak wk =
                    Ok (false, ak, wk)).
    { apply (step_past_target STEP_SIZE); [rewrite Hdk; assumption|].
      rewrite Hok, Hoh. lia. }
    assert (Hfin : finish (Animated := Crossbolt_Animated STEP_SIZE) ak wk =
                   Ok (CrossboltAnimation.set_base ak
                         (CrossboltAnimation.base ak),
                       g (CrossboltAnimation._clear ak wk))).
    { change (finish ak wk) with (CrossboltAnimation.finish ak wk).
      unfold CrossboltAnimation.finish. rewrite Hbk. reflexivity. }
    rewrite Hr.
    apply (mainloop_completes m fuel hooked ak ak _ (f w) wk wk
             (g (CrossboltAnimation._clear ak wk)) [Start]); assumption.
Qed.

(** X9. With a positive step and positive cell sizes: shooting from the
    player's own position raises [ValueError] before anything is frozen,
    drawn or scheduled.  For any other position both hooks are registered
    before the flight is played, and when [play_animation] returns the
    zombie was frozen, then the first frame was drawn, at the centre of the
    player's cell, [step] and [get_frequency] were called once and a timer of
    100 ms is armed; the flight goes along the player's row towards a zombie
    in this row, and along the player's column towards a zombie in this
    column; and once the event loop has fired as many timers as the flight
    has frames, the run is over: the world is the one where the zombie was
    frozen, after as many [step] as return [True], after the last sprite was
    deleted and after the zombie was removed, in this order. *)
Theorem shoot_at_zombie_flight
  (player_pos position : Z * Z) (w : World) (fuel : nat) :
  0 < STEP_SIZE ->
  0 < AbstractGrid._cell_width _grid ->
  0 < AbstractGrid._cell_height _grid ->
  (player_pos = position ->
   MastersGraphicalInterface._shoot_at_zombie STEP_SIZE _grid
     _freeze_zombie _remove_zombie player_pos position w =
   Raise ValueError) /\
  (player_pos <> position ->
   exists a r,
     CrossboltAnimation.__init__ _grid (snd player_pos, fst player_pos)
       (snd position, fst position) = Ok a /\
     MastersGraphicalInterface._shoot_at_zombie STEP_SIZE _grid
       _freeze_zombie _remove_zombie player_pos position w = Ok r /\
     let hooked :=
       CrossboltAnimation.on_finish
         (CrossboltAnimation.on_start a (_freeze_zombie position))
         (_remove_zombie position) in
     let m := true_steps STEP_SIZE (travel_offset a) in
     (exists sprite w2 image w1,
         get_image (CrossboltAnimation._angle a) (_freeze_zombie position w) =
           (sprite, w2) /\
         create_image
           (AbstractGrid.get_position_center _grid
              (snd player_pos, fst player_pos)) sprite w2 = (image, w1) /\
         r = {| animation :=
                  CrossboltAnimation._move_one_step STEP_SIZE
                    (CrossboltAnimation.set_image hooked (Some image));
                world := w1;
                trace := [Start; Step (Some true); GetFrequency];
                pending := After 100 |}) /\
     (snd player_pos = snd position ->
      CrossboltAnimation._direction a =
      (Z.sgn (fst position - fst player_pos), 0)) /\
     (fst player_pos = fst position ->
      CrossboltAnimation._direction a =
      (0, Z.sgn (snd position - snd player_pos))) /\
     ((m <= fuel)%nat ->
      exists ak wk,
        step_n (an := Crossbolt_Animated STEP_SIZE) m hooked
          (_freeze_zombie position w) = Ok (repeat true m, ak, wk) /\
        mainloop (an := Crossbolt_Animated STEP_SIZE) fuel r =
        {| animation :=
             CrossboltAnimation.set_base ak (CrossboltAnimation.base ak);
           world := _remove_zombie position (CrossboltAnimation._clear ak wk);
           trace := Start :: frames_trace m ++ [Step (Some false); Finish];
           pending := Idle |})).
Proof.
  intros HS Hw Hh. split.
  - intros <-. unfold MastersGraphicalInterface._shoot_at_zombie.
    destruct player_pos as [x y]. simpl fst; simpl snd.
    unfold CrossboltAnimation.__init__,
      CrossboltAnimation._direction_from_positions.
    rewrite !Z.ltb_irrefl, !Z.gtb_ltb, !Z.ltb_irrefl. reflexivity.
  - intros Hne.
    destruct (init_succeeds _grid (snd player_pos, fst player_pos)
                (snd position, fst position)) as [a Ha].
    { intros [= H1 H2]. apply Hne.
      destruct player_pos, position; simpl in *; congruence. }
    destruct (init_offset _grid _ _ a Hw Hh Ha) as (Hd & Hpos & _).
    pose proof (init_fields _grid _ _ a Ha) as (Hdir & Hp & _ & Hi & _).
    destruct (hooked_flight_run a (_freeze_zombie position)
                (_remove_zombie position) w fuel HS Hd ltac:(lia) Hi)
      as (Hfirst & Hrun).
    exists a. eexists.
    split; [exact Ha|].
    split; [unfold MastersGraphicalInterface._shoot_at_zombie;
            rewrite Ha; reflexivity|].
    cbv zeta. rewrite <- Hp.
    split; [exact Hfirst|].
    split; [|split; [|exact Hrun]].
    + intros Hrow.
      destruct player_pos as [px py], position as [zx zy]; simpl in *.
      subst zy. unfold CrossboltAnimation._direction_from_positions in Hdir.
      rewrite !Z.gtb_ltb, !Z.ltb_irrefl in Hdir.
      destruct (Z.ltb_spec px zx).
      { injection Hdir as <-. rewrite Z.sgn_pos by lia. reflexivity. }
      destruct (Z.ltb_spec zx px).
      { injection Hdir as <-. rewrite Z.sgn_neg by lia. reflexivity. }
      discriminate.
    + intros Hcol.
      destruct player_pos as [px py], position as [zx zy]; simpl in *.
      subst zx. unfold CrossboltAnimation._direction_from_positions in Hdir.
      rewrite !Z.gtb_ltb in Hdir.
      destruct (Z.ltb_spec py zy).
      { injection Hdir as <-. rewrite Z.sgn_pos by lia. reflexivity. }
      destruct (Z.ltb_spec zy py).
      { injection Hdir as <-. rewrite Z.sgn_neg by lia. reflexivity. }
      exfalso. apply Hne. f_equal. lia.
Qed.

End Shooting.

(** ** Going back in time *)

Section TimeTravel.
Context {tk : Toolkit} {gl : GameLogic}.

Import AnimationManager.

Lemma round_truediv_near (a b : Z) :
  0 < b ->
  exists q,
    py_round_truediv a b = Ok q /\
    2 * Z.abs (q * b - a) <= b /\
    (2 * Z.abs (q * b - a) = b -> Z.even q = true).
Proof.
  intros Hb. unfold py_round_truediv.
  destruct (Z.eqb_spec b 0); [lia|].
  pose proof (Z.mod_pos_bound a b Hb) as Hr.
  pose proof (Z.div_mod a b ltac:(lia)) as Hq.
  rewrite (Z.abs_eq (a mod b)), (Z.abs_eq b) by lia.
  destruct (Z.ltb_spec (2 * (a mod b)) b).
  { exists (a / b). split; [reflexivity|]. split; lia. }
  destruct (Z.ltb_spec b (2 * (a mod b))).
  { exists (a / b + 1). split; [reflexivity|]. split; lia. }
  destruct (Z.even (a / b)) eqn:He.
  { exists (a / b). split; [reflexivity|]. split; [lia|auto]. }
  exists (a / b + 1). split; [reflexivity|]. split; [lia|].
  intros _. rewrite Z.even_add, He. reflexivity.
Qed.

Lemma replay_frames (k : nat) :
  forall (self : TimeMachineAnimation.t) (w : World),
    TimeMachineAnimation._current_step self = Z.of_nat k - 1 ->
    (k <= length (TimeMachineAnimation._game_states self))%nat ->
    frames k self w =
    Some (TimeMachineAnimation.set_current_step self (-1),
          fold_left (redraw (TimeMachineAnimation._draw_game self))
            (rev (firstn k (TimeMachineAnimation._game_states self))) w).
Proof.
  induction k as [|k IH]; intros self w Hc Hk.
  - destruct self as [b states draw c]. simpl in *. subst c. reflexivity.
  - destruct (nth_error (TimeMachineAnimation._game_states self) k)
      as [s|] eqn:Hs.
    2:{ apply nth_error_None in Hs. lia. }
    cbn [frames].
    change (step self w) with (TimeMachineAnimation.step self w).
    rewrite (step_in_range self w k s) by (assumption || lia).
    destruct (round_truediv_near 1000
                (Z.of_nat (length (TimeMachineAnimation._game_states self))))
      as (ms & Hms & _); [lia|].
    change (get_frequency
              (TimeMachineAnimation.set_current_step self (Z.of_nat k - 1)))
      with (py_round_truediv 1000
              (Z.of_nat (length (TimeMachineAnimation._game_states self)))).
    rewrite Hms.
    rewrite IH by (simpl; lia || reflexivity).
    cbn [TimeMachineAnimation.set_current_step
           TimeMachineAnimation._game_states
           TimeMachineAnimation._draw_game TimeMachineAnimation.base].
    rewrite (firstn_snoc _ k s Hs), rev_app_distr. reflexivity.
Qed.

(** A replay with both hooks registered, from [play_animation] to the
    end. *)
Lemma hooked_replay_run
  (states : list GameState) (draw : Game -> World -> World)
  (f g : World -> World) (w : World) (fuel : nat) :
  (length states <= fuel)%nat ->
  let hooked :=
    TimeMachineAnimation.on_finish
      (TimeMachineAnimation.on_start
         (TimeMachineAnimation.__init__ states draw) f) g in
  mainloop fuel (play_animation hooked w) =
  {| animation := TimeMachineAnimation.set_current_step hooked (-1);
     world := g (fold_left (redraw draw) (rev states) (f w));
     trace := Start :: frames_trace (length states)
                ++ [Step (Some false); Finish];
     pending := Idle |}.
Proof.
  intros Hfuel hooked.
  unfold play_animation.
  change (start hooked w) with (Ok (hooked, f w)).
  cbv iota beta.
  apply (mainloop_completes (length states) fuel hooked
           (TimeMachineAnimation.set_current_step hooked (-1))
           (TimeMachineAnimation.set_current_step hooked (-1))
           (TimeMachineAnimation.set_current_step hooked (-1))
           (f w)
           (fold_left (redraw draw) (rev states) (f w))
           (fold_left (redraw draw) (rev states) (f w))
           (g (fold_left (redraw draw) (rev states) (f w)))
           [Start]).
  - rewrite (replay_frames (length states) hooked (f w)).
    + cbn [hooked TimeMachineAnimation.on_finish TimeMachineAnimation.on_start
             TimeMachineAnimation.set_base TimeMachineAnimation.__init__
             TimeMachineAnimation._game_states
             TimeMachineAnimation._draw_game].
      rewrite firstn_all. reflexivity.
    + reflexivity.
    + simpl. lia.
  - reflexivity.
  - reflexivity.
  - assumption.
Qed.

(** X10. A replay with both hooks registered is always driven to its end:
    once the event loop has fired as many timers as there are snapshots, the
    start hook has run, then every snapshot was redrawn once, from the newest
    to the oldest, then the finish hook has run, and no timer is left.  So
    for no snapshot at all, where no timer is needed. *)
Theorem replay_driven_to_completion
  (states : list GameState) (draw : Game -> World -> World)
  (on_start_hook on_finish_hook : World -> World) (w : World) (fuel : nat) :
  (length states <= fuel)%nat ->
  let hooked :=
    TimeMachineAnimation.on_finish
      (TimeMachineAnimation.on_start
         (TimeMachineAnimation.__init__ states draw) on_start_hook)
      on_finish_hook in
  drive fuel hooked w =
  {| animation := TimeMachineAnimation.set_current_step hooked (-1);
     world :=
       on_finish_hook
         (fold_left (redraw draw) (rev states) (on_start_hook w));
     trace := Start :: frames_trace (length states)
                ++ [Step (Some false); Finish];
     pending := Idle |}.
Proof.
  intros Hfuel hooked. unfold drive.
  apply hooked_replay_run. assumption.
Qed.

Variable InventoryItem : Type.
Variable TimeMachineItem : Type.
Variable as_time_machine : InventoryItem -> option TimeMachineItem.
Variable get_game_states : TimeMachineItem -> list GameState.
Variable draw : Game -> World -> World.
Variable pause : World -> World.
Variable _use_time_machine : TimeMachineItem -> World -> World.

Lemma find_no_time_machine (items : list InventoryItem) :
  forall acc : option TimeMachineItem,
    (forall item, In item items -> as_time_machine item = None) ->
    MastersGraphicalInterface.find_time_machine
      InventoryItem TimeMachineItem as_time_machine acc items = acc.
Proof.
  induction items as [|item items IH]; intros acc Hnone; [reflexivity|].
  simpl. rewrite (Hnone item) by (left; reflexivity).
  apply IH. intros i Hi. apply Hnone. right. exact Hi.
Qed.

Lemma find_last_time_machine (before : list InventoryItem) :
  forall (acc : option TimeMachineItem) (item : InventoryItem)
         (machine : TimeMachineItem) (after : list InventoryItem),
    as_time_machine item = Some machine ->
    (forall i, In i after -> as_time_machine i = None) ->
    MastersGraphicalInterface.find_time_machine
      InventoryItem TimeMachineItem as_time_machine acc
      (before ++ item :: after) = Some machine.
Proof.
  induction before as [|b before IH]; intros acc item machine after Hm Hafter.
  - simpl. rewrite Hm. apply find_no_time_machine. assumption.
  - simpl. destruct (as_time_machine b); apply IH; assumption.
Qed.

(** X13. Reversing time with no time machine in the inventory does
    nothing: no hook runs and nothing is played.  With several of them it is
    the last one in the inventory whose history is replayed: the game is
    paused first, then the snapshots of this time machine are redrawn from
    the newest to the oldest, and the time machine is used when the replay
    is over. *)
Theorem reverse_time_uses_last_machine (w : World) :
  (forall items : list InventoryItem,
      (forall item, In item items -> as_time_machine item = None) ->
      MastersGraphicalInterface._reverse_time InventoryItem TimeMachineItem
        as_time_machine get_game_states draw pause _use_time_machine
        items w = None) /\
  (forall (before after : list InventoryItem) (item : InventoryItem)
          (machine : TimeMachineItem) (fuel : nat),
      as_time_machine item = Some machine ->
      (forall i, In i after -> as_time_machine i = None) ->
      (length (get_game_states machine) <= fuel)%nat ->
      exists r,
        MastersGraphicalInterface._reverse_time InventoryItem TimeMachineItem
          as_time_machine get_game_states draw pause _use_time_machine
          (before ++ item :: after) w = Some r /\
        world (mainloop fuel r) =
          _use_time_machine machine
            (fold_left (redraw draw) (rev (get_game_states machine))
               (pause w)) /\
        trace (mainloop fuel r) =
          Start :: frames_trace (length (get_game_states machine))
            ++ [Step (Some false); Finish] /\
        pending (mainloop fuel r) = Idle).
Proof.
  split.
  - intros items Hnone. unfold MastersGraphicalInterface._reverse_time.
    rewrite find_no_time_machine by assumption. reflexivity.
  - intros before after item machine fuel Hm Hafter Hfuel.
    unfold MastersGraphicalInterface._reverse_time.
    rewrite (find_last_time_machine before None item machine after)
      by assumption.
    eexists. split; [reflexivity|].
    rewrite hooked_replay_run by assumption.
    repeat split.
Qed.

End TimeTravel.

Section ReplayInterval.
Context {tk : Toolkit} {gl : GameLogic}.

Lemma round_1000_monotone (n m q q' : Z) :
  0 < n <= m ->
  py_round_truediv 1000 n = Ok q ->
  py_round_truediv 1000 m = Ok q' ->
  0 <= q' <= q /\ q <= 1000.
Proof.
  intros Hnm Hq Hq'.
  destruct (round_truediv_near 1000 n) as (q1 & E1 & Hn1 & _); [lia|].
  destruct (round_truediv_near 1000 m) as (q2 & E2 & Hn2 & _); [lia|].
  rewrite Hq in E1. rewrite Hq' in E2.
  injection E1 as <-. injection E2 as <-.
  assert (Hq0 : 0 <= q) by nia.
  assert (Hq'0 : 0 <= q') by nia.
  assert (Hq1000 : q <= 1000) by nia.
  split; [split; [assumption|]|assumption].
  destruct (Z.le_gt_cases q' q) as [|Hgt]; [assumption|exfalso].
  assert (H1 : (2 * q' - 1) * m <= 2000) by nia.
  assert (H2 : 2000 <= (2 * q + 1) * n) by nia.
  assert (H3 : (2 * q + 1) * n <= (2 * q + 1) * m) by nia.
  assert (H4 : (2 * q + 1) * m <= (2 * q' - 1) * m) by nia.
  assert (Heq : n = m) by nia.
  subst m. rewrite Hq in Hq'. injection Hq' as <-. lia.
Qed.

(** X11. The interval of a replay never grows with the history: over at
    least one snapshot it is between 0 and 1000 ms, a longer history never
    has a longer interval than a shorter one, and from 2000 snapshots on the
    interval is 0 ms, the frames being scheduled without any delay. *)
Theorem replay_interval_shrinks
  (states1 states2 : list GameState) (draw1 draw2 : Game -> World -> World) :
  states1 <> [] ->
  (length states1 <= length states2)%nat ->
  exists ms1 ms2,
    TimeMachineAnimation.get_frequency
      (TimeMachineAnimation.__init__ states1 draw1) = Ok ms1 /\
    TimeMachineAnimation.get_frequency
      (TimeMachineAnimation.__init__ states2 draw2) = Ok ms2 /\
    0 <= ms2 <= ms1 /\ ms1 <= 1000 /\
    (ms1 = 0 <-> (2000 <= length states1)%nat).
Proof.
  intros Hne Hlen.
  assert (H1 : 0 < Z.of_nat (length states1))
    by (destruct states1; [congruence|simpl; lia]).
  destruct (round_truediv_near 1000 (Z.of_nat (length states1)) H1)
    as (ms1 & E1 & Hn1 & Ht1).
  destruct (round_truediv_near 1000 (Z.of_nat (length states2)))
    as (ms2 & E2 & _); [lia|].
  exists ms1, ms2. split; [exact E1|]. split; [exact E2|].
  destruct (round_1000_monotone (Z.of_nat (length states1))
              (Z.of_nat (length states2)) ms1 ms2 ltac:(lia) E1 E2)
    as [Hm Hb].
  split; [exact Hm|]. split; [exact Hb|].
  split.
  - intros ->. simpl in Hn1. lia.
  - intros Hlong.
    destruct (Z.eq_dec ms1 0) as [|Hnz]; [assumption|exfalso].
    assert (Hone : ms1 = 1) by nia.
    subst ms1.
    assert (Htie : Z.of_nat (length states1) = 2000) by lia.
    rewrite Htie in Ht1. simpl in Ht1.
    specialize (Ht1 eq_refl). discriminate.
Qed.

End ReplayInterval.

(** ** The table of high scores *)

Section ScoreTable.

Import HighScorePrompt.

Lemma in_firstn {X : Type} (n : nat) (l : list X) (x : X) :
  In x (firstn n l) -> In x l.
Proof.
  intros H. rewrite <- (firstn_skipn n l). apply in_or_app. auto.
Qed.

Lemma insert_by_score_length (e : entry) (l : list entry) :
  length (insert_by_score e l) = S (length l).
Proof.
  induction l as [|x l IH]; simpl; [reflexivity|].
  destruct (snd e <=? snd x); simpl; [reflexivity|]. rewrite IH. reflexivity.
Qed.

Lemma sort_by_score_length (l : list entry) :
  length (sort_by_score l) = length l.
Proof.
  induction l as [|x l IH]; simpl; [reflexivity|].
  rewrite insert_by_score_length, IH. reflexivity.
Qed.

Lemma insert_by_score_in (e x : entry) (l : list entry) :
  In x (insert_by_score e l) <-> x = e \/ In x l.
Proof.
  induction l as [|y l IH]; simpl.
  - split; intros [H|H]; auto.
  - destruct (snd e <=? snd y); simpl; [|rewrite IH];
      split; intros H; repeat destruct H as [H|H]; auto.
Qed.

Lemma sort_by_score_in (x : entry) (l : list entry) :
  In x (sort_by_score l) <-> In x l.
Proof.
  induction l as [|y l IH]; simpl; [tauto|].
  rewrite insert_by_score_in, IH. split; intros [H|H]; auto.
Qed.

Lemma insert_by_score_ascending (e : entry) (l : list entry) :
  ascending l -> ascending (insert_by_score e l).
Proof.
  induction l as [|x l IH]; simpl.
  - intros _. split; [intros y []|exact I].
  - intros [Hx Hl]. destruct (Z.leb_spec (snd e) (snd x)); simpl.
    + split; [|split; assumption].
      intros y [<-|Hy]; [assumption|]. specialize (Hx y Hy). lia.
    + split; [|apply IH; assumption].
      intros y Hy. apply insert_by_score_in in Hy as [->|Hy]; [lia|].
      apply Hx. assumption.
Qed.

Lemma sort_by_score_ascending (l : list entry) : ascending (sort_by_score l).
Proof.
  induction l as [|x l IH]; simpl; [exact I|].
  apply insert_by_score_ascending. assumption.
Qed.

(** The model of the sort is the stable sort: besides being ascending and
    keeping the entries, it keeps the entries of one score in their order. *)
Lemma insert_by_score_stable (v : Z) (e : entry) (l : list entry) :
  filter (fun x => snd x =? v) (insert_by_score e l) =
  filter (fun x => snd x =? v) (e :: l).
Proof.
  induction l as [|y l IH]; [reflexivity|].
  simpl insert_by_score. destruct (Z.leb_spec (snd e) (snd y)); [reflexivity|].
  simpl filter in *. rewrite IH.
  destruct (Z.eqb_spec (snd e) v); destruct (Z.eqb_spec (snd y) v);
    try reflexivity; lia.
Qed.

Lemma sort_by_score_stable (v : Z) (l : list entry) :
  filter (fun x => snd x =? v) (sort_by_score l) =
  filter (fun x => snd x =? v) l.
Proof.
  induction l as [|y l IH]; [reflexivity|].
  simpl sort_by_score. rewrite insert_by_score_stable. simpl. rewrite IH.
  reflexivity.
Qed.

Lemma ascending_app (l1 l2 : list entry) :
  ascending (l1 ++ l2) ->
  ascending l1 /\ forall x y, In x l1 -> In y l2 -> snd x <= snd y.
Proof.
  induction l1 as [|a l1 IH]; simpl.
  - intros _. split; [exact I|intros x y []].
  - intros [Ha Hrest]. destruct (IH Hrest) as [H1 H2]. split.
    + split; [|assumption]. intros y Hy. apply Ha, in_or_app. auto.
    + intros x y [<-|Hx] Hy; [apply Ha, in_or_app; auto|].
      apply H2; assumption.
Qed.

Lemma insert_before_not_better (x e : entry) (l1 l2 : list entry) :
  snd x <= snd e ->
  insert_by_score x (l1 ++ e :: l2) = insert_by_score x l1 ++ e :: l2.
Proof.
  intros Hle. induction l1 as [|y l1 IH]; simpl.
  - destruct (Z.leb_spec (snd x) (snd e)); [reflexivity|lia].
  - destruct (snd x <=? snd y); simpl; [reflexivity|]. rewrite IH.
    reflexivity.
Qed.

Lemma insert_after_better (x : entry) (l1 l2 : list entry) :
  (forall y, In y l1 -> snd y < snd x) ->
  insert_by_score x (l1 ++ l2) = l1 ++ insert_by_score x l2.
Proof.
  induction l1 as [|y l1 IH]; simpl; intros Hlt; [reflexivity|].
  destruct (Z.leb_spec (snd x) (snd y)).
  - specialize (Hlt y (or_introl eq_refl)). lia.
  - rewrite IH; [reflexivity|]. intros z Hz. apply Hlt. auto.
Qed.

(** Where the stable sort puts an entry that was appended last: behind the
    entries it does not beat, the ties included. *)
Lemma sort_with_new_score (l : list entry) (e : entry) :
  sort_by_score (l ++ [e]) =
  sort_by_score (filter (not_worse (snd e)) l) ++
  e :: sort_by_score (filter (worse (snd e)) l).
Proof.
  induction l as [|x l IH]; [reflexivity|].
  simpl app. simpl sort_by_score at 1. rewrite IH.
  unfold not_worse, worse. simpl filter.
  destruct (Z.leb_spec (snd x) (snd e)); destruct (Z.ltb_spec (snd e) (snd x));
    try lia.
  - simpl sort_by_score. apply insert_before_not_better. assumption.
  - simpl sort_by_score.
    rewrite (insert_after_better x
               (sort_by_score (filter (fun e0 => snd e0 <=? snd e) l))
               (e :: _)).
    + simpl. destruct (Z.leb_spec (snd x) (snd e)); [lia|reflexivity].
    + intros y Hy. apply sort_by_score_in, filter_In in Hy as [_ Hy].
      apply Z.leb_le in Hy. lia.
Qed.

Variable MAX_ALLOWED_HIGH_SCORES : Z.

Lemma new_scores_firstn (scores : list entry) (name : text) (time : Z) :
  0 <= MAX_ALLOWED_HIGH_SCORES ->
  new_scores MAX_ALLOWED_HIGH_SCORES scores name time =
  firstn (Z.to_nat MAX_ALLOWED_HIGH_SCORES)
    (sort_by_score (scores ++ [(name, time)])).
Proof.
  intros Hmax. unfold new_scores, py_slice_to.
  rewrite Z.gtb_ltb.
  destruct (Z.ltb_spec MAX_ALLOWED_HIGH_SCORES
              (Z.of_nat (length (sort_by_score (scores ++ [(name, time)]))))).
  - destruct (Z.ltb_spec MAX_ALLOWED_HIGH_SCORES 0); [lia|reflexivity].
  - rewrite firstn_all2; [reflexivity|lia].
Qed.

(** X14. With a limit that is not negative, whatever the order of the
    scores that were read: the scores written are in ascending order, they
    are the scores read together with the new one when these fit in the
    limit, and as many as the limit allows otherwise; every score written
    was read or is the new one, and a score that is left out is no better
    than any score that is kept. *)
Theorem new_scores_are_the_best
  (scores : list entry) (name : text) (time : Z) :
  0 <= MAX_ALLOWED_HIGH_SCORES ->
  let written := new_scores MAX_ALLOWED_HIGH_SCORES scores name time in
  length written =
    Nat.min (S (length scores)) (Z.to_nat MAX_ALLOWED_HIGH_SCORES) /\
  ascending written /\
  (forall e, In e written -> In e scores \/ e = (name, time)) /\
  (forall e kept,
      In e (scores ++ [(name, time)]) -> ~ In e written ->
      In kept written -> snd kept <= snd e).
Proof.
  intros Hmax written. subst written.
  rewrite new_scores_firstn by assumption.
  set (sorted := sort_by_score (scores ++ [(name, time)])).
  set (k := Z.to_nat MAX_ALLOWED_HIGH_SCORES).
  pose proof (sort_by_score_ascending (scores ++ [(name, time)])) as Hasc.
  fold sorted in Hasc. rewrite <- (firstn_skipn k sorted) in Hasc.
  apply ascending_app in Hasc as [Hfirst Hsplit].
  split; [|split; [exact Hfirst|split]].
  - rewrite length_firstn. unfold sorted.
    rewrite sort_by_score_length, length_app. simpl length. lia.
  - intros e He. apply in_firstn in He.
    apply sort_by_score_in, in_app_or in He as [He|[<-|[]]]; auto.
  - intros e kept He Hout Hkept. apply Hsplit; [assumption|].
    apply sort_by_score_in in He. fold sorted in He.
    rewrite <- (firstn_skipn k sorted) in He.
    apply in_app_or in He as [He|He]; [contradiction|assumption].
Qed.

(** X15. With a limit that is not negative: the new score is written
    behind every score read that is smaller or equal, so a tie goes to the
    score that was there; it is written when fewer such scores than the
    limit were read, and otherwise it is left out and only scores that were
    read are written. *)
Theorem new_score_rank (scores : list entry) (name : text) (time : Z) :
  0 <= MAX_ALLOWED_HIGH_SCORES ->
  let written := new_scores MAX_ALLOWED_HIGH_SCORES scores name time in
  let ahead := filter (not_worse time) scores in
  (Z.of_nat (length ahead) < MAX_ALLOWED_HIGH_SCORES ->
   nth_error written (length ahead) = Some (name, time) /\
   firstn (length ahead) written = sort_by_score ahead) /\
  (MAX_ALLOWED_HIGH_SCORES <= Z.of_nat (length ahead) ->
   written =
     firstn (Z.to_nat MAX_ALLOWED_HIGH_SCORES) (sort_by_score ahead) /\
   forall e, In e written -> In e scores).
Proof.
  intros Hmax written ahead. subst written.
  rewrite new_scores_firstn by assumption.
  set (sorted := sort_by_score (scores ++ _)).
  assert (Hsort : sorted =
                  sort_by_score ahead ++
                  (name, time) :: sort_by_score (filter (worse time) scores))
    by apply (sort_with_new_score scores (name, time)).
  rewrite Hsort. clear Hsort sorted.
  set (k := Z.to_nat MAX_ALLOWED_HIGH_SCORES).
  pose proof (sort_by_score_length ahead) as Hlen.
  split.
  - intros Hrank.
    rewrite firstn_app.
    rewrite firstn_all2 by lia.
    replace (k - length (sort_by_score ahead))%nat
      with (S (k - S (length ahead)))%nat by lia.
    simpl firstn. split.
    + rewrite nth_error_app2 by lia.
      rewrite Hlen, Nat.sub_diag. reflexivity.
    + rewrite firstn_app, Hlen, Nat.sub_diag. simpl.
      rewrite app_nil_r. apply firstn_all2. lia.
  - intros Hrank.
    assert (Hcut : firstn k (sort_by_score ahead ++
                     (name, time) :: sort_by_score (filter (worse time) scores))
                   = firstn k (sort_by_score ahead)).
    { rewrite firstn_app.
      replace (k - length (sort_by_score ahead))%nat with 0%nat by lia.
      simpl. apply app_nil_r. }
    rewrite Hcut. split; [reflexivity|].
    intros e He. apply in_firstn in He.
    apply (proj1 (sort_by_score_in e ahead)) in He.
    unfold ahead in He. apply filter_In in He. tauto.
Qed.

End ScoreTable.

(** ** The lines of the high scores file *)

Section ScoreLines.

Import HighScorePrompt.

Variable py_str : Z -> text.
Variable py_int : text -> result Z.
Variable MAX_ALLOWED_HIGH_SCORES : Z.

Lemma split_on_fields (sep : Z) (s : text) :
  length (split_on sep s) = S (count_occ Z.eq_dec s sep).
Proof.
  induction s as [|c s IH]; [reflexivity|].
  simpl. destruct (Z.eqb_spec c sep) as [->|Hne].
  - destruct (Z.eq_dec sep sep); [|congruence]. simpl. rewrite IH.
    reflexivity.
  - destruct (Z.eq_dec c sep); [congruence|].
    destruct (split_on sep s); simpl in *; [discriminate|assumption].
Qed.



Lemma lstrip_commas (s : text) : commas (lstrip s) = commas s.
Proof.
  unfold commas. induction s as [|c s IH]; [reflexivity|].
  simpl lstrip. destruct (is_space c) eqn:Hc; [|reflexivity].
  rewrite IH. simpl. destruct (Z.eq_dec c comma) as [->|]; [|reflexivity].
  discriminate.
Qed.

Lemma commas_rev (s : text) : commas (rev s) = commas s.
Proof.
  unfold commas. induction s as [|c s IH]; [reflexivity|].
  simpl rev. rewrite count_occ_app, IH. simpl.
  destruct (Z.eq_dec c comma); lia.
Qed.

Lemma strip_commas (s : text) : commas (strip s) = commas s.
Proof.
  unfold strip, rstrip.
  rewrite commas_rev, lstrip_commas, commas_rev. apply lstrip_commas.
Qed.

Lemma parse_line_one_comma (line : text) (e : entry) :
  parse_line py_int line = Ok e -> commas line = 1%nat.
Proof.
  unfold parse_line. intros H.
  pose proof (split_on_fields comma (strip line)) as Hn.
  fold (commas (strip line)) in Hn. rewrite strip_commas in Hn.
  destruct (split_on comma (strip line)) as [|name [|score [|x rest]]];
    try discriminate.
  simpl in Hn. lia.
Qed.

Lemma read_scores_bad_line (lines : list text) (line : text) :
  In line lines -> commas line <> 1%nat ->
  exists e, read_scores py_int lines = Raise e.
Proof.
  induction lines as [|l lines IH]; intros Hin Hbad; [contradiction|].
  simpl. destruct (parse_line py_int l) as [e|x] eqn:Hl; simpl.
  - destruct Hin as [->|Hin].
    + apply parse_line_one_comma in Hl. contradiction.
    + destruct (IH Hin Hbad) as [x ->]. exists x. reflexivity.
  - exists x. reflexivity.
Qed.

Lemma formatted_line_commas (name : text) (score : Z) :
  In comma name -> (2 <= commas (format_line py_str (name, score)))%nat.
Proof.
  intros Hname. unfold commas, format_line. simpl fst; simpl snd.
  rewrite !count_occ_app.
  assert (0 < count_occ Z.eq_dec name comma)%nat
    by (apply count_occ_In; assumption).
  simpl. lia.
Qed.

(** X17. A line of the file that does not hold exactly one comma cannot be
    read: with such a line anywhere in the file, an empty line for one,
    [save_score] raises and writes nothing.  And the text written for a name
    that contains a comma, read as one line, is such a line: reading it back
    raises [ValueError], whatever the score.  It is one line of the file
    when neither the name nor the score written holds a line break, and then
    [save_score] raises on every file that holds it. *)
Theorem save_score_needs_one_comma_per_line :
  (forall (lines : list text) (line name : text) (time : Z),
      In line lines -> commas line <> 1%nat ->
      exists e,
        save_score py_str py_int MAX_ALLOWED_HIGH_SCORES
          (Some lines) name time = Raise e) /\
  (forall (name : text) (score : Z),
      In comma name ->
      parse_line py_int (format_line py_str (name, score)) =
      Raise ValueError) /\
  (forall (before after : list text) (name new_name : text)
          (score time : Z),
      In comma name ->
      ~ In line_feed name -> ~ In carriage_return name ->
      ~ In line_feed (py_str score) -> ~ In carriage_return (py_str score) ->
      exists e,
        save_score py_str py_int MAX_ALLOWED_HIGH_SCORES
          (Some (before ++ format_line py_str (name, score) :: after))
          new_name time = Raise e).
Proof.
  split; [|split].
  - intros lines line name time Hin Hbad. unfold save_score.
    destruct (read_scores_bad_line lines line Hin Hbad) as [e ->].
    exists e. reflexivity.
  - intros name score Hname. unfold parse_line.
    pose proof (split_on_fields comma
                  (strip (format_line py_str (name, score)))) as Hn.
    fold (commas (strip (format_line py_str (name, score)))) in Hn.
    rewrite strip_commas in Hn.
    pose proof (formatted_line_commas name score Hname) as Htwo.
    destruct (split_on comma (strip (format_line py_str (name, score))))
      as [|f1 [|f2 [|f3 rest]]]; simpl in Hn; try reflexivity; lia.
  - intros before after name new_name score time Hname _ _ _ _.
    unfold save_score.
    destruct (read_scores_bad_line
                (before ++ format_line py_str (name, score) :: after)
                (format_line py_str (name, score))) as [e ->].
    + apply in_elt.
    + pose proof (formatted_line_commas name score Hname). lia.
    + exists e. reflexivity.
Qed.





End ScoreLines.

(** ** More concrete runs *)

Lemma center_to_position_round_trip_witness :
  GridGeometry.pixel_to_position (grid 50)
    (AbstractGrid.get_position_center (grid 50) (2, 3)) = Ok (2, 3).
Proof.
  apply (center_to_position_round_trip (grid 50) (2, 3)); reflexivity.
Defined.

Lemma pixel_to_position_iff_in_bbox_witness :
  GridGeometry.pixel_to_position (grid 50) (120, 60) = Ok (1, 2) <->
  (100 <= 120 < 150 /\ 50 <= 60 < 100).
Proof.
  exact (pixel_to_position_iff_in_bbox (grid 50) (120, 60) (1, 2)
           eq_refl eq_refl).
Defined.

Lemma grid_construction_witness :
  8 <> 0 /\ BasicMap.__init__ 50 8 = Ok (grid 50).
Proof.
  assert (H : 8 <> 0) by discriminate.
  split; [exact H|].
  exact (proj1 (proj2 (proj2 (grid_construction 50))) 8 H).
Defined.

Lemma use_item_outside_rows_witness :
  InventoryView.use_item (il := Shelf.inventory_logic) 100 (grid 50)
    (10, 20) (Shelf.items [(3, false)]) = Ok (Shelf.items [(3, false)], []).
Proof.
  apply (proj1 (proj2 (use_item_outside_rows (il := Shelf.inventory_logic)
                         100 (grid 50) 10 20 (Shelf.items [(3, false)])))).
  - reflexivity.
  - discriminate.
  - reflexivity.
Defined.

Lemma use_item_keeps_one_active_witness :
  InventoryView.use_item (il := Shelf.inventory_logic) 100 (grid 50)
    (10, 120) (Shelf.items [(3, false); (4, true)]) =
    Ok (Shelf.items [(3, false); (4, false)],
        InventoryView.DeleteAll ::
        InventoryView.draw 100 (grid 50)
          (Shelf.items [(3, false); (4, false)])) /\
  Nat.le (count_active (Shelf.items [(3, false); (4, false)])) 1%nat.
Proof.
  split; [reflexivity|].
  apply (use_item_keeps_one_active (il := Shelf.inventory_logic) 100
           (fun p => eq_refl) (fun items => eq_refl)
           (grid 50) (10, 120) (Shelf.items [(3, false); (4, true)])
           (Shelf.items [(3, false); (4, false)])
           (InventoryView.DeleteAll ::
            InventoryView.draw 100 (grid 50)
              (Shelf.items [(3, false); (4, false)]))
           eq_refl).
  unfold count_active. simpl. lia.
Defined.

Lemma crossbolt_angle_defined_witness :
  exists a,
    CrossboltAnimation.__init__ (grid 50) (3, 1) (0, 1) = Ok a /\
    CrossboltAnimation._angle a = Some 90.
Proof.
  eexists. split; [reflexivity|].
  exact (proj2 (crossbolt_angle_defined (tk := toolkit))
           (grid 50) (3, 1) (0, 1) _ eq_refl).
Defined.

Lemma crossbolt_frames_on_the_line_witness :
  exists a ak wk,
    CrossboltAnimation.__init__ (grid 50) (0, 0) (0, 2) = Ok a /\
    step_n (an := Crossbolt_Animated 25) 4 a [] =
      Ok ([true; true; true; true], ak, wk) /\
    CrossboltAnimation._position ak = (125, 25) /\
    CrossboltAnimation._target a = (125, 25).
Proof.
  eexists.
  destruct (crossbolt_frames_on_the_line (tk := toolkit) 25 (grid 50)
              (0, 0) (0, 2) _ [] 4 eq_refl eq_refl eq_refl eq_refl)
    as (ak & wk & image & w1 & Hrun & _ & _ & _ & _ & _ & Hlast).
  - vm_compute. discriminate.
  - exists ak, wk. split; [reflexivity|]. split; [exact Hrun|].
    split; [|reflexivity].
    rewrite Hlast; [reflexivity|left; reflexivity|reflexivity].
Defined.

Lemma recorded_flight_leaves_no_sprite_witness :
  exists a a1 w1 a2,
    CrossboltAnimation.__init__ (grid 50) (0, 0) (0, 1) = Ok a /\
    step_n (an := Crossbolt_Animated 25) 5
      (CrossboltAnimation.on_finish a (hook 2)) [] =
      Ok ([true; true; true; false; false], a1, w1) /\
    CrossboltAnimation.finish a1 w1 =
      Ok (a2,
          [Created 0 (25, 25) (Some 0); Deleted 0;
           Created 2 (50, 25) (Some 0); Deleted 2;
           Created 4 (75, 25) (Some 0); Deleted 4;
           Hooked 2]).
Proof.
  eexists.
  destruct (recorded_flight_leaves_no_sprite 25 (grid 50) (0, 0) (0, 1) _
              (hook 2) [] 5 eq_refl eq_refl eq_refl eq_refl)
    as (a1 & w1 & a2 & Hrun & Hfin).
  - vm_compute. lia.
  - exists a1, w1, a2. split; [reflexivity|]. split; [exact Hrun|exact Hfin].
Defined.

Lemma shoot_at_zombie_flight_witness :
  exists r,
    MastersGraphicalInterface._shoot_at_zombie 25 (grid 50)
      (fun _ => hook 1) (fun _ => hook 2) (0, 0) (1, 0) [] = Ok r /\
    AnimationManager.world r = [Hooked 1; Created 1 (25, 25) (Some 0)] /\
    AnimationManager.world
      (AnimationManager.mainloop (an := Crossbolt_Animated 25) 3 r) =
    [Hooked 1;
     Created 1 (25, 25) (Some 0); Deleted 1;
     Created 3 (50, 25) (Some 0); Deleted 3;
     Created 5 (75, 25) (Some 0); Deleted 5;
     Hooked 2].
Proof.
  assert (Hne : (0, 0) <> (1, 0)) by discriminate.
  destruct (proj2 (shoot_at_zombie_flight (tk := toolkit) 25 (grid 50)
                     (fun _ => hook 1) (fun _ => hook 2) (0, 0) (1, 0) [] 3
                     eq_refl eq_refl eq_refl) Hne)
    as (a & r & Ha & Hr & Hfirst & _ & _ & Hrun).
  injection Ha as <-.
  destruct Hfirst as (sprite & w2 & image & w1 & Hget & Hmake & Hplay).
  injection Hget as <- <-. injection Hmake as <- <-.
  destruct Hrun as (ak & wk & Hsteps & Hmain); [vm_compute; lia|].
  vm_compute in Hsteps. injection Hsteps as <- <-.
  exists r. split; [exact Hr|]. split.
  - rewrite Hplay. reflexivity.
  - rewrite Hmain. reflexivity.
Defined.

Lemma replay_driven_to_completion_witness :
  AnimationManager.world
    (AnimationManager.drive 2
       (TimeMachineAnimation.on_finish
          (TimeMachineAnimation.on_start
             (TimeMachineAnimation.__init__ (tk := toolkit)
                (gl := game_logic) [10; 20] draw) (hook 1))
          (hook 2))
       []) =
  [Hooked 1; Drew 20; Drew 10; Hooked 2].
Proof.
  rewrite (replay_driven_to_completion (tk := toolkit) (gl := game_logic)
             [10; 20] draw (hook 1) (hook 2) [] 2 (le_n 2)).
  reflexivity.
Defined.

Lemma replay_interval_shrinks_witness :
  exists ms1 ms2,
    TimeMachineAnimation.get_frequency
      (TimeMachineAnimation.__init__ (tk := toolkit) (gl := game_logic)
         [10; 20; 30] draw) = Ok ms1 /\
    TimeMachineAnimation.get_frequency
      (TimeMachineAnimation.__init__ (tk := toolkit) (gl := game_logic)
         [10; 20; 30; 40] draw) = Ok ms2 /\
    ms2 <= ms1.
Proof.
  assert (Hne : [10; 20; 30] <> ([] : list Z)) by discriminate.
  destruct (replay_interval_shrinks (tk := toolkit) (gl := game_logic)
              [10; 20; 30] [10; 20; 30; 40] draw draw Hne
              (le_S 3 3 (le_n 3)))
    as (ms1 & ms2 & H1 & H2 & Hle & _).
  exists ms1, ms2. split; [exact H1|]. split; [exact H2|]. apply Hle.
Defined.

Lemma manager_never_loops_witness :
  AnimationManager.drive 5 (Animation.__init__ Animation.fresh) [] =
  AnimationManager.drive 3 (Animation.__init__ (tk := toolkit) Animation.fresh)
    [].
Proof.
  apply (proj2 (proj2 (manager_never_loops (tk := toolkit) 3 2
                         (Animation.__init__ Animation.fresh) []))).
  intros ms. discriminate.
Defined.

Lemma reverse_time_uses_last_machine_witness :
  exists r,
    MastersGraphicalInterface._reverse_time (tk := toolkit)
      (gl := game_logic) (option (list Z)) (list Z)
      (fun item => item) (fun machine => machine) draw (hook 1)
      (fun machine => hook (Z.of_nat (length machine)))
      [Some [10]; None; Some [20; 30]; None] [] = Some r /\
    AnimationManager.world (AnimationManager.mainloop 2 r) =
    [Hooked 1; Drew 30; Drew 20; Hooked 2].
Proof.
  destruct (proj2 (reverse_time_uses_last_machine (tk := toolkit)
                     (gl := game_logic) (option (list Z)) (list Z)
                     (fun item => item) (fun machine => machine) draw
                     (hook 1)
                     (fun machine => hook (Z.of_nat (length machine))) [])
              [Some [10]; None] [None] (Some [20; 30]) [20; 30] 2%nat
              eq_refl)
    as (r & Hr & Hw & _).
  - intros i [<-|[]]. reflexivity.
  - simpl. lia.
  - exists r. split; [exact Hr|exact Hw].
Defined.

Lemma new_scores_are_the_best_witness :
  0 <= 3 /\
  HighScorePrompt.new_scores 3 [([97], 40); ([98], 12); ([99], 75)] [100] 30 =
  [([98], 12); ([100], 30); ([97], 40)] /\
  ascending
    (HighScorePrompt.new_scores 3 [([97], 40); ([98], 12); ([99], 75)]
       [100] 30).
Proof.
  assert (H : 0 <= 3) by lia.
  split; [exact H|]. split; [reflexivity|].
  apply (new_scores_are_the_best 3 [([97], 40); ([98], 12); ([99], 75)]
           [100] 30 H).
Defined.

Lemma new_score_rank_witness :
  3 <= Z.of_nat (length (filter (not_worse 40)
                           [([97], 40); ([98], 12); ([99], 30)])) /\
  HighScorePrompt.new_scores 3 [([97], 40); ([98], 12); ([99], 30)] [100] 40 =
  [([98], 12); ([99], 30); ([97], 40)].
Proof.
  assert (H : 3 <= Z.of_nat (length (filter (not_worse 40)
                                       [([97], 40); ([98], 12); ([99], 30)])))
    by (simpl; lia).
  split; [exact H|].
  rewrite (proj1 (proj2 (new_score_rank 3
                           [([97], 40); ([98], 12); ([99], 30)] [100] 40
                           ltac:(lia)) H)).
  reflexivity.
Defined.


Lemma save_score_needs_one_comma_per_line_witness :
  HighScorePrompt.parse_line Decimal.int
    (HighScorePrompt.format_line Decimal.str ([97; 44; 98], 12)) =
  Raise ValueError.
Proof.
  apply (proj2 (save_score_needs_one_comma_per_line Decimal.str Decimal.int
                  3)).
  right. left. reflexivity.
Defined.

(** ** The background of the map *)

Section Background.
Variable _grid : AbstractGrid.t.

Import ImageGraphicalInterface.

Lemma in_py_range (n i : Z) : In i (py_range n) <-> 0 <= i < n.
Proof.
  unfold py_range. rewrite in_map_iff. split.
  - intros (k & <- & Hk). apply in_seq in Hk. lia.
  - intros Hi. exists (Z.to_nat i). split; [lia|]. apply in_seq. lia.
Qed.

Lemma py_range_length (n : Z) : length (py_range n) = Z.to_nat n.
Proof. unfold py_range. rewrite length_map, length_seq. reflexivity. Qed.

Lemma py_range_nodup (n : Z) : NoDup (py_range n).
Proof.
  unfold py_range. generalize (seq_NoDup (Z.to_nat n) 0).
  induction 1 as [|k l Hk Hl IH]; simpl; constructor; [|exact IH].
  intros Hin. apply in_map_iff in Hin as (k' & Heq & Hin).
  apply Nat2Z.inj in Heq. subst k'. contradiction.
Qed.

Lemma center_injective (p q : Z * Z) :
  0 < AbstractGrid._cell_width _grid ->
  0 < AbstractGrid._cell_height _grid ->
  AbstractGrid.get_position_center _grid p =
  AbstractGrid.get_position_center _grid q ->
  p = q.
Proof.
  intros Hw Hh. destruct p as [r c], q as [r' c'].
  unfold AbstractGrid.get_position_center. intros [= Hx Hy].
  f_equal; nia.
Qed.

Lemma flat_map_length_const {X Y : Type} (f : X -> list Y) (k : nat)
  (l : list X) :
  (forall x, length (f x) = k) -> length (flat_map f l) = (length l * k)%nat.
Proof.
  intros Hf. induction l as [|x l IH]; [reflexivity|].
  simpl. rewrite length_app, Hf, IH. reflexivity.
Qed.

Lemma flat_map_nodup {X Y : Type} (f : X -> list Y) (l : list X) :
  NoDup l ->
  (forall x, NoDup (f x)) ->
  (forall x x' y, In y (f x) -> In y (f x') -> x = x') ->
  NoDup (flat_map f l).
Proof.
  intros Hl Hf Hsep. induction Hl as [|x l Hx Hl IH]; simpl.
  - constructor.
  - apply NoDup_app; [apply Hf | exact IH |].
    intros y Hy Hy'. apply in_flat_map in Hy' as (x' & Hx' & Hy').
    rewrite (Hsep x x' y Hy Hy') in Hx. contradiction.
Qed.

Lemma nth_error_flat_map_blocks {X Y : Type} (f : X -> list Y) (k : nat)
  (l : list X) :
  (forall x, length (f x) = k) ->
  forall (i j : nat) (x : X),
    nth_error l i = Some x -> (j < k)%nat ->
    nth_error (flat_map f l) (i * k + j) = nth_error (f x) j.
Proof.
  intros Hf. induction l as [|y l IH]; intros [|i] j x Hx Hj;
    simpl in Hx; try discriminate.
  - injection Hx as ->. simpl flat_map. simpl Nat.mul. simpl Nat.add.
    apply nth_error_app1. rewrite Hf. exact Hj.
  - simpl flat_map. rewrite nth_error_app2 by (rewrite Hf; lia).
    rewrite Hf.
    replace (S i * k + j - k)%nat with (i * k + j)%nat by lia.
    apply IH; assumption.
Qed.

Lemma nth_error_py_range (n : Z) (i : nat) :
  (i < Z.to_nat n)%nat -> nth_error (py_range n) i = Some (Z.of_nat i).
Proof.
  intros Hi. unfold py_range. rewrite nth_error_map.
  rewrite (nth_error_nth' (seq 0 (Z.to_nat n)) 0%nat)
    by (rewrite length_seq; exact Hi).
  rewrite seq_nth by exact Hi. reflexivity.
Qed.

(** X18. On a map with positive cell sizes the background is one tile on
    every cell of the [_size] rows and columns, at its centre, and nothing
    else: [_size * _size] tiles, no pixel twice, row after row, the tile of
    the cell in row [i] and column [j] being the one drawn after
    [i * _size + j] others; for a size that is not positive nothing is
    drawn. *)
Theorem background_covers_every_cell (_size : Z) :
  0 < AbstractGrid._cell_width _grid ->
  0 < AbstractGrid._cell_height _grid ->
  let drawn := _draw_background _grid _size in
  length drawn = (Z.to_nat _size * Z.to_nat _size)%nat /\
  NoDup drawn /\
  (forall pixel,
      In pixel drawn <->
      exists i j,
        0 <= i < _size /\ 0 <= j < _size /\
        pixel = AbstractGrid.get_position_center _grid (i, j)) /\
  (_size <= 0 -> drawn = []) /\
  (forall i j,
      0 <= i < _size -> 0 <= j < _size ->
      nth_error drawn (Z.to_nat (i * _size + j)) =
      Some (AbstractGrid.get_position_center _grid (i, j))).
Proof.
  intros Hw Hh drawn. subst drawn. unfold _draw_background.
  assert (Hin : forall pixel,
             In pixel
               (flat_map
                  (fun i => flat_map (fun j => draw_entity _grid (i, j))
                              (py_range _size)) (py_range _size)) <->
             exists i j,
               0 <= i < _size /\ 0 <= j < _size /\
               pixel = AbstractGrid.get_position_center _grid (i, j)).
  { intros pixel. rewrite in_flat_map. split.
    - intros (i & Hi & Hp). apply in_flat_map in Hp as (j & Hj & Hp).
      destruct Hp as [<-|[]]. exists i, j.
      apply in_py_range in Hi. apply in_py_range in Hj. auto.
    - intros (i & j & Hi & Hj & ->). exists i.
      split; [apply in_py_range; assumption|].
      apply in_flat_map. exists j.
      split; [apply in_py_range; assumption|]. left. reflexivity. }
  assert (Hrow : forall i,
             length (flat_map (fun j => draw_entity _grid (i, j))
                       (py_range _size)) = Z.to_nat _size).
  { intros i. rewrite (flat_map_length_const _ 1%nat).
    - rewrite py_range_length. lia.
    - reflexivity. }
  split; [|split; [|split; [exact Hin|split]]].
  - rewrite (flat_map_length_const _ (Z.to_nat _size)) by exact Hrow.
    rewrite py_range_length. reflexivity.
  - apply flat_map_nodup.
    + apply py_range_nodup.
    + intros i. apply flat_map_nodup.
      * apply py_range_nodup.
      * intros j. repeat constructor. intros [].
      * intros j j' y [<-|[]] [H|[]].
        apply center_injective in H; [congruence|assumption|assumption].
    + intros i i' y Hy Hy'.
      apply in_flat_map in Hy as (j & _ & [<-|[]]).
      apply in_flat_map in Hy' as (j' & _ & [H|[]]).
      apply center_injective in H; [congruence|assumption|assumption].
  - intros Hneg. unfold py_range.
    replace (Z.to_nat _size) with 0%nat by lia. reflexivity.
  - intros i j Hi Hj.
    replace (Z.to_nat (i * _size + j))
      with (Z.to_nat i * Z.to_nat _size + Z.to_nat j)%nat by nia.
    rewrite (nth_error_flat_map_blocks _ (Z.to_nat _size) (py_range _size)
               Hrow (Z.to_nat i) (Z.to_nat j) i).
    + replace (Z.to_nat j) with (Z.to_nat j * 1 + 0)%nat by lia.
      rewrite (nth_error_flat_map_blocks
                 (fun j0 => draw_entity _grid (i, j0)) 1%nat
                 (py_range _size) (fun _ => eq_refl) (Z.to_nat j) 0%nat j).
      * reflexivity.
      * rewrite nth_error_py_range by lia. f_equal. lia.
      * lia.
    + rewrite nth_error_py_range by lia. f_equal. lia.
    + lia.
Qed.

End Background.

Lemma background_covers_every_cell_witness :
  ImageGraphicalInterface._draw_background (grid 50) 2 =
  [(25, 25); (75, 25); (25, 75); (75, 75)] /\
  NoDup (ImageGraphicalInterface._draw_background (grid 50) 2).
Proof.
  split; [reflexivity|].
  apply (background_covers_every_cell (grid 50) 2 eq_refl eq_refl).
Defined.

(** ** What the inventory shows and what a click does *)

Section InventoryRows.
Context {il : InventoryLogic}.

Import InventoryView.

Variable INVENTORY_WIDTH : Z.
Variable CELL_SIZE : Z.

Lemma position_of_center (self : AbstractGrid.t) (position : Z * Z) :
  0 < AbstractGrid._cell_width self ->
  0 < AbstractGrid._cell_height self ->
  GridGeometry.pixel_to_position self
    (AbstractGrid.get_position_center self position) = Ok position.
Proof.
  intros Hw Hh. destruct position as [row col].
  unfold GridGeometry.pixel_to_position, AbstractGrid.get_position_center.
  destruct (Z.eqb_spec (AbstractGrid._cell_height self) 0); [lia|].
  destruct (Z.eqb_spec (AbstractGrid._cell_width self) 0); [lia|].
  rewrite !div_cell_offset; try reflexivity; try assumption;
    split; try (apply Z.div_pos; lia); apply Z.div_lt_upper_bound; lia.
Qed.

Lemma inventory_view_cells (rows : Z) (self : AbstractGrid.t) :
  2 <= INVENTORY_WIDTH -> 0 < CELL_SIZE ->
  __init__ INVENTORY_WIDTH CELL_SIZE rows = Ok self ->
  0 < AbstractGrid._cell_width self /\
  AbstractGrid._cell_height self = CELL_SIZE.
Proof.
  intros Hw Hc. unfold __init__, GridGeometry.__init__. simpl.
  destruct (Z.eqb_spec rows 0); [discriminate|].
  intros [= <-]. simpl. split.
  - apply Z.div_str_pos. lia.
  - apply Z.div_mul. assumption.
Qed.

Lemma draw_from_in (self : AbstractGrid.t) (items : list Pickup) :
  forall (k : Z) (i : nat) (item : Pickup) (c : canvas_call),
    nth_error items i = Some item ->
    In c (draw_pickup INVENTORY_WIDTH self (k + Z.of_nat i) item) ->
    In c (draw_from INVENTORY_WIDTH self k items).
Proof.
  induction items as [|x items IH]; intros k [|i] item c Hn Hc;
    simpl in Hn; try discriminate.
  - injection Hn as ->. simpl draw_from. apply in_or_app. left.
    replace (k + Z.of_nat 0) with k in Hc by lia. exact Hc.
  - simpl draw_from. apply in_or_app. right.
    apply (IH (k + 1) i item c Hn).
    replace (k + 1 + Z.of_nat i) with (k + Z.of_nat (S i)) by lia. exact Hc.
Qed.

(** X19. On an inventory view built for a width of two pixels or more and a
    positive cell size, the name and the lifetime of the pickup at index
    [i] are drawn in the row that a click is read back to this index: a
    click on either text toggles this very pickup and draws the view again,
    when the pickup is active or no pickup is, and does nothing
    otherwise. *)
Theorem click_on_drawn_pickup
  (rows : Z) (self : AbstractGrid.t) (inventory : list Pickup)
  (i : nat) (item : Pickup) :
  2 <= INVENTORY_WIDTH ->
  0 < CELL_SIZE ->
  __init__ INVENTORY_WIDTH CELL_SIZE rows = Ok self ->
  nth_error inventory i = Some item ->
  let name_at :=
    AbstractGrid.get_position_center self (Z.of_nat i + 1, 0) in
  let lifetime_at :=
    AbstractGrid.get_position_center self (Z.of_nat i + 1, 1) in
  let colour := if is_active item then White else Black in
  In (CreateText name_at (Name (class_name item)) colour)
     (draw INVENTORY_WIDTH self inventory) /\
  In (CreateText lifetime_at (Lifetime (get_lifetime item)) colour)
     (draw INVENTORY_WIDTH self inventory) /\
  (forall pixel,
      pixel = name_at \/ pixel = lifetime_at ->
      use_item INVENTORY_WIDTH self pixel inventory =
      if is_active item || negb (any_active inventory)
      then
        let inventory1 := list_set inventory i (toggle_active item) in
        Ok (inventory1, DeleteAll :: draw INVENTORY_WIDTH self inventory1)
      else Ok (inventory, [])).
Proof.
  intros Hw Hc Hself Hitem name_at lifetime_at colour.
  destruct (inventory_view_cells rows self Hw Hc Hself) as [Hcw Hch].
  assert (Hh : 0 < AbstractGrid._cell_height self) by lia.
  assert (Hlen : (i < length inventory)%nat)
    by (apply nth_error_Some; congruence).
  split; [|split].
  - unfold draw. apply in_or_app. right.
    apply (draw_from_in self inventory 0 i item _ Hitem).
    unfold draw_pickup. apply in_or_app. right. left. reflexivity.
  - unfold draw. apply in_or_app. right.
    apply (draw_from_in self inventory 0 i item _ Hitem).
    unfold draw_pickup. apply in_or_app. right. right. left. reflexivity.
  - intros pixel Hpixel. unfold use_item.
    assert (Hpos : exists col,
               GridGeometry.pixel_to_position self pixel =
               Ok (Z.of_nat i + 1, col)).
    { destruct Hpixel as [-> | ->]; eexists;
        apply position_of_center; assumption. }
    destruct Hpos as [col ->]. simpl bind. simpl fst.
    replace (Z.of_nat i + 1 - 1) with (Z.of_nat i) by lia.
    destruct (Z.leb_spec 0 (Z.of_nat i)); [|lia].
    destruct (Z.ltb_spec (Z.of_nat i) (Z.of_nat (length inventory))); [|lia].
    simpl andb. cbv iota.
    destruct (py_getitem_in_range inventory (Z.of_nat i))
      as (x & -> & Hx); [lia|].
    rewrite Nat2Z.id in *. rewrite Hitem in Hx. injection Hx as <-.
    reflexivity.
Qed.

End InventoryRows.

Lemma click_on_drawn_pickup_witness :
  InventoryView.use_item (il := Shelf.inventory_logic) 100 (grid 50)
    (25, 75) (Shelf.items [(3, true)]) =
  Ok (Shelf.items [(3, false)],
      InventoryView.DeleteAll ::
      InventoryView.draw 100 (grid 50) (Shelf.items [(3, false)])).
Proof.
  assert (Hw : 2 <= 100) by lia.
  assert (Hc : 0 < 50) by lia.
  destruct (click_on_drawn_pickup (il := Shelf.inventory_logic) 100 50 4
              (grid 50) (Shelf.items [(3, true)]) 0 (3, true)
              Hw Hc eq_refl eq_refl) as (_ & _ & Hclick).
  exact (Hclick (25, 75) (or_introl eq_refl)).
Defined.
